(** * Movie enrichment and recommendation services

    A shallow embedding of [EnrichmentService] (services/enrichmentService.ts)
    and [RecommendationService] (services/recommendationService.ts) together
    with the parts of [Database] (config/database.ts) they call.

    Conventions of the embedding
    - a JavaScript [number] held by a row or computed by a formula is an
      exact rational ([Q]); every finite double is a rational, and the
      arithmetic is carried out without the rounding of binary64, so that a
      value computed here may differ from the double computed by the code in
      its last places (and, through [toFixed], by one hundredth on a tie);
      [Math.log10] is the field [log10] of the [Runtime]; the limit of a
      selection, which callers compute with [parseInt], is a [Num.number]
      and may be NaN;
    - a JavaScript string is a [string] of 8-bit characters; [String.trim]
      strips the ASCII white space characters;
    - the result of [JSON.parse] is a value of type [json]; the grammar itself
      is the field [parse_text] of the [Runtime], [None] standing for a
      [SyntaxError];
    - an [async] method is a computation in the monad [M]: it threads the
      [World] (the two databases and the log of prompts sent to the
      completion service) and either returns a value or throws;
    - the completion service and the storage faults are fields of the
      [Runtime] indexed by the number of prompts sent so far, so that the
      same request may be answered differently at different times;
    - a query that reads ([runQuery]) and the creation of the enrichment
      table return normally; a write either fails and changes nothing or
      stores the row, each value as the column it goes to keeps it (the
      text read as a number by SQLite and the text of a number are fields
      of the [Runtime]). *)

From Stdlib Require Import ZArith QArith Qround Qminmax Qabs.
From Stdlib Require Import List String Ascii Bool Lia Lqa DecimalString.
From Stdlib Require Import Permutation Sorted.
Import ListNotations.

Local Open Scope Q_scope.

(** ** JavaScript numbers *)

Module Num.

Definition ltb (x y : Q) : bool := negb (Qle_bool y x).

Definition of_nat (n : nat) : Q := inject_Z (Z.of_nat n).

(** The magnitude n/100 for the integer n closest to 100*x, the larger n
    on a tie. *)
Definition nearest (x : Q) : Q := inject_Z (Qfloor (x * 100 + (1 # 2))) / 100.

(** From this magnitude on [toFixed] prints like [ToString]. *)
Definition fixed_limit : Q := inject_Z (10 ^ 21).

(** [Number(x.toFixed(2))] on the exact value of [x]: the sign is split
    off, magnitudes of at least 10^21 are printed by [ToString] and read
    back unchanged, any other magnitude is rounded to hundredths. The text
    printed is read back as the hundredth itself, not as the double next
    to it. *)
Definition toFixed2 (x : Q) : Q :=
  if Qle_bool fixed_limit (Qabs x) then x
  else if ltb x 0 then - nearest (- x) else nearest x.

(** [Number.isInteger] *)
Definition isInteger (x : Q) : Prop := exists z : Z, x == inject_Z z.

(** A [number] that need not be finite: the value of a parameter that is
    declared [number] and computed by the caller ([parseInt] returns NaN
    on a text that does not start with a digit). *)
Inductive number : Type :=
| Finite (q : Q)
| NaN
| PlusInfinity
| MinusInfinity.

(** [n >= limit] for the length [n] of an array: a comparison with NaN is
    false. *)
Definition length_ge (n : nat) (limit : number) : bool :=
  match limit with
  | Finite q => Qle_bool q (of_nat n)
  | NaN => false
  | PlusInfinity => false
  | MinusInfinity => true
  end.

End Num.

(** ** Values produced by [JSON.parse] *)

#[local] Set Warnings "-register-all".

Inductive json : Type :=
| JNull
| JBool (b : bool)
| JNum (q : Q)
| JStr (s : string)
| JArr (items : list json)
| JObj (fields : list (string * json)).

(** Exceptions. *)
Inductive exn : Type :=
| Error (message : string)
| TypeError
| SyntaxError
| ServiceError (code : Z)
| StorageError.

Inductive result (A : Type) : Type :=
| Ok (a : A)
| Throw (e : exn).
Arguments Ok {A} a.
Arguments Throw {A} e.

Module JS.

(** ToBoolean on a parsed value. *)
Definition truthy (v : json) : bool :=
  match v with
  | JNull => false
  | JBool b => b
  | JNum q => negb (Qeq_bool q 0)
  | JStr s => negb (s =? EmptyString)%string
  | JArr _ | JObj _ => true
  end.

Fixpoint assoc (k : string) (fields : list (string * json)) : option json :=
  match fields with
  | [] => None
  | (k', v) :: rest => if (k =? k')%string then Some v else assoc k rest
  end.

(** [v.k] for one of the data keys read by the services (none of them is a
    property of a prototype): [None] is [undefined]; reading a property of
    [null] throws. *)
Definition get (v : json) (k : string) : result (option json) :=
  match v with
  | JNull => Throw TypeError
  | JObj fields => Ok (assoc k fields)
  | _ => Ok None
  end.

(** [v || d] *)
Definition or (v : option json) (d : json) : json :=
  match v with
  | Some j => if truthy j then j else d
  | None => d
  end.

(** [a === b] where the two values come from two different calls of
    [JSON.parse]: arrays and objects are compared by identity, hence differ. *)
Definition strict_eq (a b : json) : bool :=
  match a, b with
  | JNull, JNull => true
  | JBool x, JBool y => Bool.eqb x y
  | JNum x, JNum y => Qeq_bool x y
  | JStr x, JStr y => (x =? y)%string
  | _, _ => false
  end.

(** [n === v] for a number [n] held by a database row. *)
Definition num_eq (n : Z) (v : option json) : bool :=
  match v with
  | Some (JNum q) => Qeq_bool (inject_Z n) q
  | _ => false
  end.

Definition is_space (c : ascii) : bool :=
  let n := nat_of_ascii c in
  ((9 <=? n) && (n <=? 13) || (n =? 32))%nat.

Fixpoint trimStart (s : string) : string :=
  match s with
  | EmptyString => EmptyString
  | String c rest => if is_space c then trimStart rest else s
  end.

Fixpoint trimEnd (s : string) : string :=
  match s with
  | EmptyString => EmptyString
  | String c rest =>
      match trimEnd rest with
      | EmptyString => if is_space c then EmptyString else String c EmptyString
      | t => String c t
      end
  end.

Definition trim (s : string) : string := trimEnd (trimStart s).

(** [xs.slice(0, n)] *)
Definition slice0 {A : Type} (xs : list A) (n : Z) : list A :=
  if (n <? 0)%Z
  then firstn (Z.to_nat (Z.max (Z.of_nat (List.length xs) + n) 0)) xs
  else firstn (Z.to_nat n) xs.

(** [xs.slice(-n)] for a positive literal [n]. *)
Definition slice_last {A : Type} (n : nat) (xs : list A) : list A :=
  skipn (List.length xs - n) xs.

(** [xs.sort(cmp)]: the sort is stable; [le a b] is [cmp(a, b) <= 0]. *)
Fixpoint insert {A : Type} (le : A -> A -> bool) (x : A) (xs : list A) : list A :=
  match xs with
  | [] => [x]
  | y :: rest => if le x y then x :: xs else y :: insert le x rest
  end.

Fixpoint sort {A : Type} (le : A -> A -> bool) (xs : list A) : list A :=
  match xs with
  | [] => []
  | x :: rest => insert le x (sort le rest)
  end.

Definition string_of_Z (z : Z) : string := NilZero.string_of_int (Z.to_int z).

End JS.

(** ** Data model (config/database.ts, models/) *)

Record Movie : Type := mkMovie {
  movieId : Z;
  imdbId : string;
  title : string;
  overview : string;
  productionCompanies : string;
  releaseDate : string;
  budget : Q;
  revenue : Q;
  runtime : Q;
  language : string;
  genres : string;
  status : string
}.

Record Rating : Type := mkRating {
  ratingId : Z;
  userId : Z;
  rating_movieId : Z;
  rating : Q;
  timestamp : Z
}.

(** The three attributes returned by the completion service are kept as
    parsed: nothing in the services checks their types. *)
Record MovieEnrichment : Type := mkMovieEnrichment {
  enrichment_movieId : Z;
  awardPotential : json;
  popularityQualityIndex : json;
  emotionalGenres : json;
  productionCompanyRollingROI : option Q;
  productionEffectivenessScore : Q
}.

(** A row of [Movie & MovieEnrichment]. *)
Record EnrichedMovie : Type := mkEnrichedMovie {
  details : Movie;
  enrichment : MovieEnrichment
}.

Record EnrichmentInput : Type := mkEnrichmentInput {
  input_movie : Movie;
  input_avgRating : Q;
  input_ratingCount : nat;
  input_companyROI : option Q
}.

Record LLMEnrichments : Type := mkLLMEnrichments {
  llm_awardPotential : json;
  llm_popularityQualityIndex : json;
  llm_emotionalGenres : json
}.

Record UserPreferences : Type := mkUserPreferences {
  preferences_userId : Z;
  favoriteGenres : json;
  averageRating : Q;
  preferredEmotionalTones : json;
  budgetPreference : json;
  summary : json
}.

Record Recommendation : Type := mkRecommendation {
  movie : EnrichedMovie;
  score : json;
  reasoning : json
}.

(** One entry of the rating sample shown to the completion service. *)
Record RatedMovieContext : Type := mkRatedMovieContext {
  context_title : string;
  context_genres : string;
  context_overview : string;
  context_rating : Q;
  context_budget : Q;
  context_revenue : Q
}.

(** One entry of the list of available movies of the ranking prompt. *)
Record CandidateSummary : Type := mkCandidateSummary {
  summary_movieId : Z;
  summary_title : string;
  summary_genres : string;
  summary_overview : string;
  summary_budget : Q;
  summary_revenue : Q;
  summary_awardPotential : json;
  summary_emotionalGenres : json;
  summary_popularityQualityIndex : json;
  summary_productionEffectivenessScore : Q
}.

(** The requests sent to [openai.chat.completions.create], by their content. *)
Inductive Prompt : Type :=
| EnrichmentPrompt (input : EnrichmentInput)
| PreferencesPrompt (ratingCount : nat) (avgRating : Q) (sample : list RatedMovieContext)
| RankingPrompt (count : Z) (preferences : UserPreferences) (filters : option string)
    (available : list CandidateSummary)
| ComparisonPrompt (movies : list EnrichedMovie) (userContext : option UserPreferences).

(** The two SQLite databases: the tables in storage order. *)
Record Database : Type := mkDatabase {
  movies : list Movie;
  ratings : list Rating;
  movie_enrichments : list MovieEnrichment
}.

Record World : Type := mkWorld {
  db : Database;
  sent : list Prompt
}.

(** What the services take from their platform and from the outside. *)
Record Runtime : Type := mkRuntime {
  (** [Math.log10] *)
  log10 : Q -> Q;
  (** the grammar of [JSON.parse] *)
  parse_text : string -> option json;
  (** the sign of [a.localeCompare(b)] *)
  localeCompare : string -> string -> Z;
  (** the answer of the completion service to the request sent after n
      earlier ones: the content of the first choice ([None] for a null
      content), or a failure *)
  completion : nat -> Prompt -> result (option string);
  (** whether the write attempted after n requests fails *)
  storage_fault : nat -> MovieEnrichment -> bool;
  (** [String(v)] for an array or an object *)
  toString : json -> string;
  (** the number that SQLite reads in a text that has the form of a
      numeric literal, [None] for any other text *)
  numeric_text : string -> option Q;
  (** the text that SQLite makes of a number *)
  real_text : Q -> string
}.

(** ** The monad of the [async] methods *)

Definition M (A : Type) : Type := World -> result A * World.

Definition ret {A : Type} (a : A) : M A := fun w => (Ok a, w).

Definition throw {A : Type} (e : exn) : M A := fun w => (Throw e, w).

Definition bind {A B : Type} (c : M A) (k : A -> M B) : M B :=
  fun w =>
    match c w with
    | (Ok a, w') => k a w'
    | (Throw e, w') => (Throw e, w')
    end.

(** [try { c } catch (e) { handler(e) }]: what [c] did to the world before it
    threw is not undone. *)
Definition try_catch {A : Type} (c : M A) (handler : exn -> M A) : M A :=
  fun w =>
    match c w with
    | (Ok a, w') => (Ok a, w')
    | (Throw e, w') => handler e w'
    end.

Definition lift {A : Type} (r : result A) : M A := fun w => (r, w).

Declare Scope async_scope.
Delimit Scope async_scope with async.
Notation "x <- c ;; k" := (bind c (fun x => k))
  (at level 61, c at next level, right associativity) : async_scope.
Notation "c ;;; k" := (bind c (fun _ => k))
  (at level 61, right associativity) : async_scope.
Local Open Scope async_scope.

(** ** Database (config/database.ts) *)

Record RatingStats : Type := mkRatingStats {
  avgRating : option Q;   (* AVG(rating), NULL over no row *)
  count : nat             (* COUNT( * ) *)
}.

Definition sumQ (xs : list Q) : Q := fold_left Qplus xs 0.

(** The place of a row in a table kept in the order of its INTEGER PRIMARY
    KEY (the rowid): before the first row of a greater key. *)
Fixpoint insert_row (e : MovieEnrichment) (table : list MovieEnrichment)
  : list MovieEnrichment :=
  match table with
  | [] => [e]
  | r :: rest =>
      if (enrichment_movieId e <? enrichment_movieId r)%Z then e :: table
      else r :: insert_row e rest
  end.

(** INSERT OR REPLACE on the primary key [movieId]. *)
Definition upsert (e : MovieEnrichment) (table : list MovieEnrichment) : list MovieEnrichment :=
  insert_row e
    (filter (fun r => negb (enrichment_movieId r =? enrichment_movieId e)%Z) table).

(** What the driver binds for a parameter of a statement. *)
Inductive bound : Type :=
| BoundNull
| BoundNumber (q : Q)
| BoundText (s : string).

(** movies INNER JOIN movie_enrichments ON movieId *)
Definition join (ms : list Movie) (es : list MovieEnrichment) : list EnrichedMovie :=
  flat_map (fun m =>
    map (mkEnrichedMovie m)
        (filter (fun e => (movieId m =? enrichment_movieId e)%Z) es)) ms.

Section Services.

Variable rt : Runtime.

Definition JSON_parse (text : string) : result json :=
  if (text =? "[]")%string then Ok (JArr [])
  else if (text =? "{}")%string then Ok (JObj [])
  else match parse_text rt text with
       | Some v => Ok v
       | None => Throw SyntaxError
       end.

Definition createCompletion (p : Prompt) : M (option string) :=
  fun w => (completion rt (List.length (sent w)) p, mkWorld (db w) (sent w ++ [p])).

Definition getMovies : M (list Movie) :=
  fun w => (Ok (movies (db w)), w).

(** The driver binds a string as text, a number as a number, a boolean as
    1 or 0, null as NULL, and an array or an object as the text of its
    [toString]. *)
Definition bound_value (v : json) : bound :=
  match v with
  | JNull => BoundNull
  | JBool b => BoundNumber (if b then 1 else 0)
  | JNum q => BoundNumber q
  | JStr s => BoundText s
  | JArr _ | JObj _ => BoundText (toString rt v)
  end.

(** A column declared REAL keeps a number, turns a text that has the form
    of a numeric literal into that number and keeps any other text. *)
Definition real_column (b : bound) : json :=
  match b with
  | BoundNull => JNull
  | BoundNumber q => JNum q
  | BoundText s =>
      match numeric_text rt s with
      | Some q => JNum q
      | None => JStr s
      end
  end.

(** A column declared TEXT keeps a text and turns a number into its text. *)
Definition text_column (b : bound) : json :=
  match b with
  | BoundNull => JNull
  | BoundNumber q => JStr (real_text rt q)
  | BoundText s => JStr s
  end.

(** The row that the enrichment table keeps of a record, as it is read
    back: awardPotential and emotionalGenres are TEXT columns,
    popularityQualityIndex is a REAL column; the identifier and the two
    computed columns are numbers (or NULL) already. *)
Definition stored (e : MovieEnrichment) : MovieEnrichment :=
  mkMovieEnrichment (enrichment_movieId e)
    (text_column (bound_value (awardPotential e)))
    (real_column (bound_value (popularityQualityIndex e)))
    (text_column (bound_value (emotionalGenres e)))
    (productionCompanyRollingROI e)
    (productionEffectivenessScore e).

Definition getMoviesByIds (movieIds : list Z) : M (list Movie) :=
  fun w => (Ok (filter (fun m => existsb (Z.eqb (movieId m)) movieIds) (movies (db w))), w).

(** ... WHERE userId = ? ORDER BY timestamp DESC *)
Definition getRatingsByUserId (user : Z) : M (list Rating) :=
  fun w =>
    (Ok (JS.sort (fun a b => (timestamp b <=? timestamp a)%Z)
           (filter (fun r => (userId r =? user)%Z) (ratings (db w)))), w).

Definition getAverageRatingForMovie (id : Z) : M (option RatingStats) :=
  fun w =>
    let rows := filter (fun r => (rating_movieId r =? id)%Z) (ratings (db w)) in
    let n := List.length rows in
    (Ok (Some (mkRatingStats
                 (if (n =? 0)%nat then None
                  else Some (sumQ (map rating rows) / Num.of_nat n))
                 n)), w).

(** CREATE TABLE IF NOT EXISTS movie_enrichments *)
Definition initializeEnrichmentTable : M unit := ret tt.

Definition saveEnrichment (e : MovieEnrichment) : M unit :=
  fun w =>
    if storage_fault rt (List.length (sent w)) e then (Throw StorageError, w)
    else (Ok tt,
          mkWorld (mkDatabase (movies (db w)) (ratings (db w))
                     (upsert (stored e) (movie_enrichments (db w))))
                  (sent w)).

Definition getEnrichedMoviesWithDetails : M (list EnrichedMovie) :=
  fun w => (Ok (join (movies (db w)) (movie_enrichments (db w))), w).

(** ** EnrichmentService (services/enrichmentService.ts) *)

Fixpoint select_loop (limit : Num.number) (catalog moviesWithRatings : list Movie)
  : M (list Movie) :=
  match catalog with
  | [] => ret moviesWithRatings
  | movie :: rest =>
      if Num.length_ge (List.length moviesWithRatings) limit
      then ret moviesWithRatings
      else
        ratingStats <- getAverageRatingForMovie (movieId movie) ;;
        match ratingStats with
        | Some stats =>
            if (0 <? count stats)%nat
            then select_loop limit rest (moviesWithRatings ++ [movie])
            else select_loop limit rest moviesWithRatings
        | None => select_loop limit rest moviesWithRatings
        end
  end.

Definition selectMoviesWithRatings (limit : Num.number) : M (list Movie) :=
  catalog <- getMovies ;;
  select_loop limit catalog [].

Definition default_enrichments : LLMEnrichments :=
  mkLLMEnrichments (JStr "Medium") (JNum 50) (JStr "emotional").

(** [content?.trim() || fallback] *)
Definition trimmed_or (content : option string) (fallback : string) : string :=
  match content with
  | Some s => if (JS.trim s =? EmptyString)%string then fallback else JS.trim s
  | None => fallback
  end.

(** [content || fallback] *)
Definition content_or (content : option string) (fallback : string) : string :=
  match content with
  | Some s => if (s =? EmptyString)%string then fallback else s
  | None => fallback
  end.

Definition getLLMEnrichments (input : EnrichmentInput) : M LLMEnrichments :=
  response <- createCompletion (EnrichmentPrompt input) ;;
  let content := trimmed_or response "{}" in
  try_catch
    (parsed <- lift (JSON_parse content) ;;
     award <- lift (JS.get parsed "awardPotential") ;;
     index <- lift (JS.get parsed "popularityQualityIndex") ;;
     tones <- lift (JS.get parsed "emotionalGenres") ;;
     ret (mkLLMEnrichments
            (JS.or award (JStr "Medium"))
            (JS.or index (JNum 50))
            (JS.or tones (JStr "emotional"))))
    (fun _ => ret default_enrichments).

(** [parsed.map((c) => c.name || '')] *)
Fixpoint map_names (cs : list json) : result (list json) :=
  match cs with
  | [] => Ok []
  | c :: rest =>
      match JS.get c "name" with
      | Throw e => Throw e
      | Ok n =>
          match map_names rest with
          | Throw e => Throw e
          | Ok ns => Ok (JS.or n (JStr EmptyString) :: ns)
          end
      end
  end.

Definition company_names (parsed : json) : result (list json) :=
  match parsed with
  | JArr cs =>
      match map_names cs with
      | Throw e => Throw e
      | Ok ns => Ok (filter (fun n => negb (JS.strict_eq n (JStr EmptyString))) ns)
      end
  | _ => Throw TypeError
  end.

(** [mCompanies.some((c) => c.name === primaryCompany)] *)
Fixpoint some_named (primaryCompany : json) (cs : list json) : result bool :=
  match cs with
  | [] => Ok false
  | c :: rest =>
      match JS.get c "name" with
      | Throw e => Throw e
      | Ok (Some n) =>
          if JS.strict_eq n primaryCompany then Ok true
          else some_named primaryCompany rest
      | Ok None => some_named primaryCompany rest
      end
  end.

Definition made_by (primaryCompany : json) (m : Movie) : bool :=
  match JSON_parse (if (productionCompanies m =? EmptyString)%string then "[]"
                    else productionCompanies m) with
  | Ok (JArr cs) =>
      match some_named primaryCompany cs with
      | Ok b => b
      | Throw _ => false
      end
  | _ => false
  end.

Definition released_before (target m : Movie) : bool :=
  negb (releaseDate m =? EmptyString)%string
  && String.ltb (releaseDate m) (releaseDate target).

Definition by_releaseDate (a b : Movie) : bool :=
  (localeCompare rt (releaseDate a) (releaseDate b) <=? 0)%Z.

Definition has_financials (m : Movie) : bool :=
  Num.ltb 0 (budget m) && Num.ltb 0 (revenue m).

Definition roi_of (m : Movie) : Q :=
  ((revenue m - budget m) / budget m) * 100.

Definition roi_step (acc : Q * nat) (m : Movie) : Q * nat :=
  let (totalROI, validCount) := acc in
  if has_financials m then (totalROI + roi_of m, S validCount)
  else (totalROI, validCount).

Definition previous_movies (target : Movie) (primaryCompany : json)
    (allMovies : list Movie) : list Movie :=
  JS.slice_last 10
    (JS.sort by_releaseDate
       (filter (released_before target)
          (filter (made_by primaryCompany) allMovies))).

(** The average over the window: [null] for an empty window and for a
    window without a movie of positive budget and revenue. *)
Definition average_roi (previousMovies : list Movie) : option Q :=
  match previousMovies with
  | [] => None
  | _ =>
      let (totalROI, validCount) := fold_left roi_step previousMovies (0, 0%nat) in
      if (0 <? validCount)%nat
      then Some (totalROI / Num.of_nat validCount)
      else None
  end.

Definition calculateCompanyROI (target : Movie) : M (option Q) :=
  if (productionCompanies target =? EmptyString)%string
     || (JS.trim (productionCompanies target) =? EmptyString)%string
  then ret None
  else
    companies <- try_catch
      (parsed <- lift (JSON_parse (productionCompanies target)) ;;
       names <- lift (company_names parsed) ;;
       ret (Some names))
      (fun _ => ret None) ;;
    match companies with
    | None => ret None
    | Some [] => ret None
    | Some (primaryCompany :: _) =>
        allMovies <- getMovies ;;
        let previousMovies := previous_movies target primaryCompany allMovies in
        ret (average_roi previousMovies)
    end.

Definition ratingScore (avg : Q) : Q := (avg / 5) * 100.

Definition roiScore (m : Movie) : Q :=
  if Num.ltb 0 (budget m) && Num.ltb 0 (revenue m)
  then Qmin 100 (Qmax 0 ((roi_of m + 50) / 2))
  else 0.

Definition revenueScore (m : Movie) : Q :=
  if Num.ltb 0 (revenue m)
  then Qmin 100 ((log10 rt (revenue m) / 9) * 100)
  else 0.

Definition weighted_sum (m : Movie) (avg : Q) : Q :=
  ratingScore avg * (4 # 10) + roiScore m * (35 # 100) + revenueScore m * (25 # 100).

Definition calculateProductionEffectiveness (m : Movie) (avg : Q) : Q :=
  Num.toFixed2 (weighted_sum m avg).

Definition enrichSingleMovie (m : Movie) : M MovieEnrichment :=
  ratingStats <- getAverageRatingForMovie (movieId m) ;;
  let avg :=
    match ratingStats with
    | Some {| avgRating := Some a |} => if Qeq_bool a 0 then 0 else a
    | _ => 0
    end in
  let ratingCount :=
    match ratingStats with
    | Some stats => count stats
    | None => 0%nat
    end in
  companyROI <- calculateCompanyROI m ;;
  let input := mkEnrichmentInput m avg ratingCount companyROI in
  llmEnrichments <- getLLMEnrichments input ;;
  let productionEffectiveness := calculateProductionEffectiveness m avg in
  ret (mkMovieEnrichment (movieId m)
         (llm_awardPotential llmEnrichments)
         (llm_popularityQualityIndex llmEnrichments)
         (llm_emotionalGenres llmEnrichments)
         companyROI
         productionEffectiveness).

(** The body of the [try] of the batch loop; the pause between two items
    changes nothing in the world. *)
Definition enrich_item (m : Movie) : M MovieEnrichment :=
  e <- enrichSingleMovie m ;;
  saveEnrichment e ;;;
  ret e.

Fixpoint enrich_loop (selected : list Movie) (enrichments : list MovieEnrichment)
  : M (list MovieEnrichment) :=
  match selected with
  | [] => ret enrichments
  | m :: rest =>
      enrichments' <- try_catch
        (e <- enrich_item m ;; ret (enrichments ++ [e]))
        (fun _ => ret enrichments) ;;
      enrich_loop rest enrichments'
  end.

Definition enrichMovies (movieCount : Num.number) : M (list MovieEnrichment) :=
  selected <- selectMoviesWithRatings movieCount ;;
  initializeEnrichmentTable ;;;
  enrich_loop selected [].

(** ** RecommendationService (services/recommendationService.ts) *)

Definition context_of (found : list Movie) (r : Rating) : list RatedMovieContext :=
  match find (fun m => (movieId m =? rating_movieId r)%Z) found with
  | Some m => [mkRatedMovieContext (title m) (genres m) (overview m)
                 (rating r) (budget m) (revenue m)]
  | None => []
  end.

Definition analyzeUserPreferences (user : Z) : M UserPreferences :=
  rated <- getRatingsByUserId user ;;
  match rated with
  | [] => throw (Error ("User " ++ JS.string_of_Z user ++ " has no ratings"))
  | _ =>
      found <- getMoviesByIds (map rating_movieId rated) ;;
      let ratedMoviesContext := flat_map (context_of found) (firstn 20 rated) in
      let avg := sumQ (map rating rated) / Num.of_nat (List.length rated) in
      response <- createCompletion
                    (PreferencesPrompt (List.length rated) avg ratedMoviesContext) ;;
      let content := trimmed_or response "{}" in
      try_catch
        (parsed <- lift (JSON_parse content) ;;
         favorite <- lift (JS.get parsed "favoriteGenres") ;;
         tones <- lift (JS.get parsed "preferredEmotionalTones") ;;
         budgets <- lift (JS.get parsed "budgetPreference") ;;
         text <- lift (JS.get parsed "summary") ;;
         ret (mkUserPreferences user
                (JS.or favorite (JArr []))
                avg
                (JS.or tones (JArr []))
                (JS.or budgets (JStr "Mixed"))
                (JS.or text (JStr "User preferences could not be determined"))))
        (fun _ => throw (Error "Failed to analyze user preferences"))
  end.

Definition summarize (m : EnrichedMovie) : CandidateSummary :=
  mkCandidateSummary
    (movieId (details m)) (title (details m)) (genres (details m))
    (substring 0 150 (overview (details m)))
    (budget (details m)) (revenue (details m))
    (awardPotential (enrichment m)) (emotionalGenres (enrichment m))
    (popularityQualityIndex (enrichment m))
    (productionEffectivenessScore (enrichment m)).

(** [candidateMovies.filter((m) => !ratedMovieIds.has(m.movieId))] *)
Definition candidates_for (userRatings : list Rating) (enrichedMovies : list EnrichedMovie)
  : list EnrichedMovie :=
  filter (fun m => negb (existsb (Z.eqb (movieId (details m)))
                           (map rating_movieId userRatings)))
         enrichedMovies.

(** [candidateMovies.find((m) => m.movieId === rec.movieId)]: the property
    of [rec] is read once per candidate inspected. *)
Definition find_candidate (candidateMovies : list EnrichedMovie) (rec : json)
  : result (option EnrichedMovie) :=
  match candidateMovies with
  | [] => Ok None
  | _ =>
      match JS.get rec "movieId" with
      | Throw e => Throw e
      | Ok id => Ok (find (fun m => JS.num_eq (movieId (details m)) id) candidateMovies)
      end
  end.

Definition recommend (m : EnrichedMovie) (rec : json) : result Recommendation :=
  match JS.get rec "score", JS.get rec "reasoning" with
  | Ok s, Ok r =>
      Ok (mkRecommendation m
            (JS.or s (JNum 0))
            (JS.or r (JStr "Recommended based on your preferences")))
  | Throw e, _ => Throw e
  | _, Throw e => Throw e
  end.

(** The [forEach] over the entries returned by the completion service. *)
Fixpoint reconcile (candidateMovies : list EnrichedMovie) (recs : list json)
    (recommendations : list Recommendation) : result (list Recommendation) :=
  match recs with
  | [] => Ok recommendations
  | rec :: rest =>
      match find_candidate candidateMovies rec with
      | Throw e => Throw e
      | Ok None => reconcile candidateMovies rest recommendations
      | Ok (Some m) =>
          match recommend m rec with
          | Throw e => Throw e
          | Ok r => reconcile candidateMovies rest (recommendations ++ [r])
          end
      end
  end.

Definition getRecommendations (user : Z) (requested : Z) (filters : option string)
  : M (list Recommendation) :=
  preferences <- analyzeUserPreferences user ;;
  userRatings <- getRatingsByUserId user ;;
  enrichedMovies <- getEnrichedMoviesWithDetails ;;
  let candidateMovies := candidates_for userRatings enrichedMovies in
  match candidateMovies with
  | [] => throw (Error "No unrated movies available for recommendations")
  | _ =>
      response <- createCompletion
                    (RankingPrompt requested preferences filters
                       (map summarize (firstn 50 candidateMovies))) ;;
      let content := content_or response "[]" in
      try_catch
        (parsed <- lift (JSON_parse content) ;;
         listed <- lift (JS.get parsed "recommendations") ;;
         match listed with
         | Some (JArr recs) =>
             lift (reconcile candidateMovies (JS.slice0 recs requested) [])
         | _ => throw TypeError
         end)
        (fun _ => throw (Error "Failed to generate recommendations"))
  end.

(** The optional personalisation of a comparison: [if (userId) { try ... }] *)
Definition user_context (user : option Z) : M (option UserPreferences) :=
  match user with
  | Some u =>
      if (u =? 0)%Z then ret None
      else try_catch
             (preferences <- analyzeUserPreferences u ;; ret (Some preferences))
             (fun _ => ret None)
  | None => ret None
  end.

Definition compareMovies (movieIds : list Z) (user : option Z) : M json :=
  if (List.length movieIds <? 2)%nat
  then throw (Error "At least 2 movies are required for comparison")
  else
    enrichedMovies <- getEnrichedMoviesWithDetails ;;
    let compared :=
      filter (fun m => existsb (Z.eqb (movieId (details m))) movieIds) enrichedMovies in
    if negb (List.length compared =? List.length movieIds)%nat
    then throw (Error "Some movies not found or not enriched")
    else
      userContext <- user_context user ;;
      response <- createCompletion (ComparisonPrompt compared userContext) ;;
      let content := trimmed_or response "{}" in
      try_catch
        (lift (JSON_parse content))
        (fun _ => throw (Error "Failed to compare movies")).

End Services.

(** ** Other queries of the database (config/database.ts) *)

(** [getMovies(limit, offset)]: the LIMIT clause is added for a truthy
    limit only, and the OFFSET clause for a truthy offset under a LIMIT
    clause only. In SQLite a negative LIMIT is no limit and a negative
    OFFSET is no offset. *)
Definition getMovies_with (limit offset : option Z) : M (list Movie) :=
  fun w =>
    let table := movies (db w) in
    (Ok match limit with
        | None => table
        | Some l =>
            if (l =? 0)%Z then table
            else
              let rows :=
                match offset with
                | None => table
                | Some o => if (o =? 0)%Z then table else skipn (Z.to_nat o) table
                end in
              if (l <? 0)%Z then rows else firstn (Z.to_nat l) rows
        end, w).

(** [movies[0] || null] over SELECT ... WHERE movieId = ? *)
Definition getMovieById (id : Z) : M (option Movie) :=
  fun w => (Ok (find (fun m => (movieId m =? id)%Z) (movies (db w))), w).

Definition getRatingsByMovieId (id : Z) : M (list Rating) :=
  fun w => (Ok (filter (fun r => (rating_movieId r =? id)%Z) (ratings (db w))), w).

(** SELECT DISTINCT userId FROM ratings ORDER BY userId *)
Definition getAllUsers : M (list Z) :=
  fun w => (Ok (JS.sort Z.leb (nodup Z.eq_dec (map userId (ratings (db w))))), w).

(** [enrichments[0] || null] over SELECT ... WHERE movieId = ? *)
Definition getEnrichment (id : Z) : M (option MovieEnrichment) :=
  fun w =>
    (Ok (find (fun e => (enrichment_movieId e =? id)%Z) (movie_enrichments (db w))), w).

Definition getAllEnrichments : M (list MovieEnrichment) :=
  fun w => (Ok (movie_enrichments (db w)), w).

(** * Specification-level notions *)

(** A movie has at least one rating. *)
Definition has_ratings (d : Database) (m : Movie) : bool :=
  existsb (fun r => (rating_movieId r =? movieId m)%Z) (ratings d).

(** The parsed answer is an object that carries the key [k]. *)
Definition has_key (parsed : json) (k : string) : bool :=
  match parsed with
  | JObj fields => existsb (fun kv => (fst kv =? k)%string) fields
  | _ => false
  end.

(** The world once one more prompt has been sent. *)
Definition after_prompt (w : World) (p : Prompt) : World :=
  mkWorld (db w) (sent w ++ [p]).

(** The outcome of every item of a batch, the world being threaded from one
    item to the next as the loop does. *)
Fixpoint item_outcomes (rt : Runtime) (selected : list Movie) (w : World)
  : list (Movie * result MovieEnrichment) :=
  match selected with
  | [] => []
  | m :: rest =>
      let (r, w') := enrich_item rt m w in
      (m, r) :: item_outcomes rt rest w'
  end.

Definition succeeded (trace : list (Movie * result MovieEnrichment))
  : list MovieEnrichment :=
  flat_map (fun mr => match snd mr with Ok e => [e] | Throw _ => [] end) trace.

Definition succeeded_movies (trace : list (Movie * result MovieEnrichment))
  : list Movie :=
  flat_map (fun mr => match snd mr with Ok _ => [fst mr] | Throw _ => [] end) trace.

Definition failures (trace : list (Movie * result MovieEnrichment)) : nat :=
  List.length
    (filter (fun mr => match snd mr with Ok _ => false | Throw _ => true end) trace).

(** The limit is reached by a selection of [n] movies; NaN never is. *)
Definition reached (limit : Num.number) (n : nat) : Prop :=
  match limit with
  | Num.Finite q => q <= Num.of_nat n
  | Num.MinusInfinity => True
  | Num.NaN | Num.PlusInfinity => False
  end.

(** A list of [n] entries has at most [limit] entries. *)
Definition at_most (n : nat) (limit : Num.number) : Prop :=
  match limit with
  | Num.Finite q => Num.of_nat n <= q
  | Num.PlusInfinity => True
  | Num.NaN | Num.MinusInfinity => False
  end.

(** The number of movies at which a selection stops: the least natural
    number that reaches the limit, none when no number does. *)
Definition quota (limit : Num.number) : option nat :=
  match limit with
  | Num.Finite q => Some (Z.to_nat (Qceiling q))
  | Num.MinusInfinity => Some 0%nat
  | Num.NaN | Num.PlusInfinity => None
  end.

(** The first [quota] entries of a list, all of them without a quota. *)
Definition up_to (k : option nat) {A : Type} (l : list A) : list A :=
  match k with
  | Some n => firstn n l
  | None => l
  end.

(** The rows come in the order of their identifiers, as a table scanned
    in the order of its INTEGER PRIMARY KEY returns them. *)
Definition in_key_order (table : list MovieEnrichment) : Prop :=
  StronglySorted
    (fun a b => (enrichment_movieId a < enrichment_movieId b)%Z) table.

(** The record holds a text where the table has a TEXT column and a number
    where it has a REAL column. *)
Definition well_typed (e : MovieEnrichment) : Prop :=
  (exists s, awardPotential e = JStr s) /\
  (exists q, popularityQualityIndex e = JNum q) /\
  (exists s, emotionalGenres e = JStr s).

(** The text bound for a value that is neither a number, a boolean nor
    null. *)
Definition bound_text (rt : Runtime) (v : json) : option string :=
  match v with
  | JStr s => Some s
  | JArr _ | JObj _ => Some (toString rt v)
  | _ => None
  end.

(** The table once the records [es] have been written in that order. *)
Definition written (rt : Runtime) (es : list MovieEnrichment)
    (table : list MovieEnrichment) : list MovieEnrichment :=
  fold_left (fun t e => upsert (stored rt e) t) es table.

(** The identifier carried by an entry of the ranking answer. *)
Definition entry_id (rec : json) : option json :=
  match rec with
  | JObj fields => JS.assoc "movieId" fields
  | _ => None
  end.

(** The entry names a candidate movie: its identifier is a number equal to
    the identifier of a candidate. *)
Definition known (candidateMovies : list EnrichedMovie) (rec : json) : Prop :=
  exists (m : EnrichedMovie) (q : Q),
    In m candidateMovies /\ entry_id rec = Some (JNum q)
    /\ q == inject_Z (movieId (details m)).

(** What an entry contributes to the recommendations: the first candidate
    it names, or nothing. *)
Definition kept (candidateMovies : list EnrichedMovie) (rec : json) : list EnrichedMovie :=
  match find (fun m => JS.num_eq (movieId (details m)) (entry_id rec)) candidateMovies with
  | Some m => [m]
  | None => []
  end.

(** The field holds nothing but white space. *)
Definition blank (s : string) : bool :=
  forallb JS.is_space (list_ascii_of_string s).

Definition name_of (c : json) : option json :=
  match c with
  | JObj fields => JS.assoc "name" fields
  | _ => None
  end.

Definition is_null (c : json) : bool :=
  match c with
  | JNull => true
  | _ => false
  end.

(** The name a listed company goes by, if it has one. *)
Definition named (c : json) : list json :=
  match name_of c with
  | Some n => if JS.truthy n then [n] else []
  | None => []
  end.

(** The production companies a movie declares, by name, in the order of
    the list; [None] when the field is blank, is not the text of a list, or
    is the text of a list with a null entry. The primary company is the
    first of these names: the first entry of the list that has a name. *)
Definition company_list (rt : Runtime) (m : Movie) : option (list json) :=
  if blank (productionCompanies m) then None
  else match JSON_parse rt (productionCompanies m) with
       | Ok (JArr cs) => if existsb is_null cs then None else Some (flat_map named cs)
       | _ => None
       end.

(** The entry goes by that name: its name is that very string, number or
    boolean. *)
Definition names (company : json) (c : json) : bool :=
  match name_of c with
  | Some n => JS.strict_eq n company
  | None => false
  end.




(** Budget and revenue are both positive. *)
Definition profitable (m : Movie) : bool :=
  if Qlt_le_dec 0 (budget m)
  then if Qlt_le_dec 0 (revenue m) then true else false
  else false.

(** The return on the budget, in per cent. *)
Definition percent_return (m : Movie) : Q :=
  (revenue m - budget m) / budget m * 100.



(** The arithmetic mean, the sum being taken from the first entry on. *)
Definition mean (xs : list Q) : Q :=
  sumQ xs / Num.of_nat (List.length xs).




(** [v.k] on a value that is not null. *)
Definition field_of (v : json) (k : string) : option json :=
  match v with
  | JObj fields => JS.assoc k fields
  | _ => None
  end.

(** The ratings of a user as [getRatingsByUserId] returns them. *)
Definition user_ratings (user : Z) (w : World) : list Rating :=
  JS.sort (fun a b => (timestamp b <=? timestamp a)%Z)
    (filter (fun r => (userId r =? user)%Z) (ratings (db w))).

(** The request that [analyzeUserPreferences] sends for these ratings. *)
Definition preferences_prompt (w : World) (rated : list Rating) : Prompt :=
  PreferencesPrompt (List.length rated)
    (sumQ (map rating rated) / Num.of_nat (List.length rated))
    (flat_map
       (context_of
          (filter (fun m => existsb (Z.eqb (movieId m)) (map rating_movieId rated))
                  (movies (db w))))
       (firstn 20 rated)).

(** The preferences read off a parsed answer that is not null. *)
Definition read_preferences (user : Z) (avg : Q) (parsed : json) : UserPreferences :=
  mkUserPreferences user
    (JS.or (field_of parsed "favoriteGenres") (JArr []))
    avg
    (JS.or (field_of parsed "preferredEmotionalTones") (JArr []))
    (JS.or (field_of parsed "budgetPreference") (JStr "Mixed"))
    (JS.or (field_of parsed "summary")
           (JStr "User preferences could not be determined")).

(** The entries of a ranking answer: the array under the key
    recommendations of an object. *)
Definition listed_entries (parsed : result json) : option (list json) :=
  match parsed with
  | Ok (JObj fields) =>
      match JS.assoc "recommendations" fields with
      | Some (JArr entries) => Some entries
      | _ => None
      end
  | _ => None
  end.

(** * Fixtures *)

Module Fixture.

Local Open Scope string_scope.

(** A stand-in for [Math.log10]: the number of decimal digits of the
    integer part, minus one. It is exact on the powers of ten. *)
Fixpoint count_digits (fuel : nat) (n : Z) : Z :=
  match fuel with
  | O => 0
  | S fuel' => if (n <? 10)%Z then 0 else 1 + count_digits fuel' (n / 10)
  end.

Definition digits_log10 (x : Q) : Q := inject_Z (count_digits 400 (Qfloor x)).

Definition compare_strings (a b : string) : Z :=
  match String.compare a b with
  | Lt => -1
  | Eq => 0
  | Gt => 1
  end.

(** The double quote. *)
Definition dq : string := String (ascii_of_nat 34) EmptyString.

Definition quoted (s : string) : string := dq ++ s ++ dq.

(** The text of a list holding the one company named Acme. *)
Definition acme_text : string :=
  "[{" ++ quoted "name" ++ ":" ++ quoted "Acme" ++ "}]".

(** The text of an object with the three keys: the award potential is
    High, the index is 0 and the emotional genres are the empty string. *)
Definition enrichment_text : string :=
  "{" ++ quoted "awardPotential" ++ ":" ++ quoted "High" ++ ","
      ++ quoted "popularityQualityIndex" ++ ":0,"
      ++ quoted "emotionalGenres" ++ ":" ++ quoted EmptyString ++ "}".

(** The text of an object with the favorite genres (Drama) and the budget
    preference (Indie). *)
Definition preferences_text : string :=
  "{" ++ quoted "favoriteGenres" ++ ":[" ++ quoted "Drama" ++ "],"
      ++ quoted "budgetPreference" ++ ":" ++ quoted "Indie" ++ "}".

(** The text of an object whose key recommendations lists two entries: the
    movie 999 (score 90, reasoning a) and the movie 2 (score 80, reasoning
    b). *)
Definition ranking_text : string :=
  "{" ++ quoted "recommendations" ++ ":[{"
      ++ quoted "movieId" ++ ":999," ++ quoted "score" ++ ":90,"
      ++ quoted "reasoning" ++ ":" ++ quoted "a" ++ "},{"
      ++ quoted "movieId" ++ ":2," ++ quoted "score" ++ ":80,"
      ++ quoted "reasoning" ++ ":" ++ quoted "b" ++ "}]}".

(** The text of a list holding the company named Acme and a null entry. *)
Definition null_entry_text : string :=
  "[{" ++ quoted "name" ++ ":" ++ quoted "Acme" ++ "},null]".

(** The text of a list whose first entry has an identifier and no name and
    whose second entry is the company named Acme. *)
Definition unnamed_first_text : string :=
  "[{" ++ quoted "id" ++ ":1},{" ++ quoted "name" ++ ":" ++ quoted "Acme" ++ "}]".

(** The text of an object with the three keys in which the index is the
    string 0 (a text, not a number). *)
Definition quoted_index_text : string :=
  "{" ++ quoted "awardPotential" ++ ":" ++ quoted "High" ++ ","
      ++ quoted "popularityQualityIndex" ++ ":" ++ quoted "0" ++ ","
      ++ quoted "emotionalGenres" ++ ":" ++ quoted "dark" ++ "}".

(** [JSON.parse] on the texts above; any other text is taken to be
    malformed. *)
Definition parse (text : string) : option json :=
  if (text =? acme_text)%string then
    Some (JArr [JObj [("name", JStr "Acme")]])
  else if (text =? enrichment_text)%string then
    Some (JObj [("awardPotential", JStr "High");
                ("popularityQualityIndex", JNum 0);
                ("emotionalGenres", JStr EmptyString)])
  else if (text =? preferences_text)%string then
    Some (JObj [("favoriteGenres", JArr [JStr "Drama"]);
                ("budgetPreference", JStr "Indie")])
  else if (text =? ranking_text)%string then
    Some (JObj [("recommendations",
                 JArr [JObj [("movieId", JNum 999); ("score", JNum 90);
                             ("reasoning", JStr "a")];
                       JObj [("movieId", JNum 2); ("score", JNum 80);
                             ("reasoning", JStr "b")]])])
  else if (text =? null_entry_text)%string then
    Some (JArr [JObj [("name", JStr "Acme")]; JNull])
  else if (text =? unnamed_first_text)%string then
    Some (JArr [JObj [("id", JNum 1)]; JObj [("name", JStr "Acme")]])
  else if (text =? quoted_index_text)%string then
    Some (JObj [("awardPotential", JStr "High");
                ("popularityQualityIndex", JStr "0");
                ("emotionalGenres", JStr "dark")])
  else None.

(** The completion service is down for the movie 2, answers in prose for
    the movie 3 and answers the other requests with the texts above. *)
Definition answers (n : nat) (p : Prompt) : result (option string) :=
  match p with
  | EnrichmentPrompt input =>
      if (movieId (input_movie input) =? 2)%Z then Throw (ServiceError 503)
      else if (movieId (input_movie input) =? 3)%Z
           then Ok (Some "I cannot rate this film.")
           else Ok (Some enrichment_text)
  | PreferencesPrompt _ _ _ => Ok (Some preferences_text)
  | RankingPrompt _ _ _ _ => Ok (Some ranking_text)
  | ComparisonPrompt _ _ => Ok (Some "{}"%string)
  end.

(** The text of a whole number. *)
Definition whole_text (q : Q) : string := JS.string_of_Z (Qfloor q).

(** [toString]: an array joins the texts of its entries with commas, a null
    entry giving the empty text; an object gives a fixed text. Numbers are
    printed as whole numbers. *)
Fixpoint object_text (v : json) : string :=
  match v with
  | JNull => EmptyString
  | JBool b => if b then "true" else "false"
  | JNum q => whole_text q
  | JStr s => s
  | JArr items =>
      (fix join (entries : list json) : string :=
         match entries with
         | [] => EmptyString
         | entry :: rest =>
             match rest with
             | [] => object_text entry
             | _ => object_text entry ++ "," ++ join rest
             end
         end) items
  | JObj _ => "[object Object]"
  end.

Definition is_digit (c : ascii) : bool :=
  let n := nat_of_ascii c in ((48 <=? n) && (n <=? 57))%nat.

Fixpoint digits_value (acc : Z) (s : string) : option Z :=
  match s with
  | EmptyString => Some acc
  | String c rest =>
      if is_digit c
      then digits_value (10 * acc + Z.of_nat (nat_of_ascii c - 48)) rest
      else None
  end.

(** SQLite reads a text made of digits as the whole number it writes; the
    other texts bound below (High, dark, Medium, emotional and the like) do
    not have the form of a numeric literal. *)
Definition numeric (s : string) : option Q :=
  match s with
  | EmptyString => None
  | _ => option_map inject_Z (digits_value 0 s)
  end.

Definition runtime : Runtime :=
  mkRuntime digits_log10 parse compare_strings answers (fun _ _ => false)
            object_text numeric whole_text.

(** A completion service that returns a null content to the ranking
    requests, and a store whose writes all fail. *)
Definition mute (n : nat) (p : Prompt) : result (option string) :=
  match p with
  | RankingPrompt _ _ _ _ => Ok None
  | _ => answers n p
  end.

Definition mute_runtime : Runtime :=
  mkRuntime digits_log10 parse compare_strings mute (fun _ _ => true)
            object_text numeric whole_text.

(** A completion service that answers with white space only. *)
Definition blank_runtime : Runtime :=
  mkRuntime digits_log10 parse compare_strings
            (fun _ _ => Ok (Some "   ")) (fun _ _ => false)
            object_text numeric whole_text.

(** A completion service that answers every enrichment request with an
    index given as the string 0. *)
Definition quoting (n : nat) (p : Prompt) : result (option string) :=
  match p with
  | EnrichmentPrompt _ => Ok (Some quoted_index_text)
  | _ => answers n p
  end.

Definition quoting_runtime : Runtime :=
  mkRuntime digits_log10 parse compare_strings quoting (fun _ _ => false)
            object_text numeric whole_text.

Definition first_film : Movie :=
  mkMovie 1 "tt0000001" "First" "A first film." acme_text "2001-05-04"
          100 150 95 "en" "Drama" "Released".

Definition blockbuster : Movie :=
  mkMovie 2 "tt0000002" "Blockbuster" "A sequel." acme_text "2003-07-11"
          100 1000000000 140 "en" "Action" "Released".

Definition record_breaker : Movie :=
  mkMovie 4 "tt0000004" "Record" "The largest release." acme_text "2009-12-18"
          237000000 2000000000 162 "en" "Action" "Released".

Definition unrated : Movie :=
  mkMovie 3 "tt0000003" "Unseen" "Nobody rated it." EmptyString "2004-01-01"
          0 0 80 "en" "Drama" "Released".



Definition catalog : Database :=
  mkDatabase
    [unrated; first_film; blockbuster]
    [mkRating 1 7 1 5 1000; mkRating 2 8 2 4 2000; mkRating 3 8 1 3 3000]
    [].

Definition fresh : World := mkWorld catalog [].

(** Eleven earlier releases of the same company, not stored in
    chronological order; the oldest one is the only one whose return is not
    50 per cent. *)
Definition release (id : Z) (date : string) (takings : Q) : Movie :=
  mkMovie id "tt0000000" "Release" "An earlier release." acme_text date
          100 takings 90 "en" "Drama" "Released".

Definition back_catalog : Database :=
  mkDatabase
    [release 10 "1995-03-01" 150; release 11 "1990-06-15" 300;
     release 12 "1996-03-01" 150; release 13 "1991-03-01" 150;
     release 14 "1997-03-01" 150; release 15 "1992-03-01" 150;
     release 16 "1998-03-01" 150; release 17 "1993-03-01" 150;
     release 18 "1999-03-01" 150; release 19 "1994-03-01" 150;
     release 20 "2000-03-01" 150; blockbuster]
    [] [].

Definition enriched_row (m : Movie) : MovieEnrichment :=
  mkMovieEnrichment (movieId m) (JStr "High") (JNum 50) (JStr "emotional") None 50.

(** Both rated films already carry an enrichment. *)
Definition enriched : World :=
  mkWorld (mkDatabase (movies catalog) (ratings catalog)
             [enriched_row first_film; enriched_row blockbuster])
          [].

End Fixture.

(** * Properties *)

(** ** Arithmetic of [toFixed(2)] *)

Ltac qdiv :=
  unfold Qdiv in *;
  repeat change (/ 100) with (1 # 100) in *;
  repeat change (/ 5) with (1 # 5) in *;
  repeat change (/ 9) with (1 # 9) in *;
  repeat change (/ 2) with (1 # 2) in *.

Section Rounding.

Lemma ltb_true (x y : Q) : Num.ltb x y = true <-> x < y.
Proof.
  unfold Num.ltb. rewrite negb_true_iff.
  destruct (Qle_bool y x) eqn:E.
  - apply Qle_bool_iff in E. split; [discriminate | intro; lra].
  - split; [intros _ | reflexivity].
    apply Qnot_le_lt. intro H. apply Qle_bool_iff in H. congruence.
Qed.

Lemma ltb_false (x y : Q) : Num.ltb x y = false <-> y <= x.
Proof.
  unfold Num.ltb. rewrite negb_false_iff. apply Qle_bool_iff.
Qed.

Lemma floor_above (x : Q) (n : Z) : inject_Z n <= x -> (n <= Qfloor x)%Z.
Proof.
  intro H. rewrite <- (Qfloor_Z n). now apply Qfloor_resp_le.
Qed.

Lemma floor_below (x : Q) (n : Z) : x < inject_Z n + 1 -> (Qfloor x <= n)%Z.
Proof.
  intro H. pose proof (Qfloor_le x) as L.
  assert (inject_Z (Qfloor x) < inject_Z (n + 1)) as I
    by (rewrite inject_Z_plus; change (inject_Z 1) with 1; lra).
  rewrite <- Zlt_Qlt in I. lia.
Qed.

Lemma nearest_mono (x y : Q) : x <= y -> Num.nearest x <= Num.nearest y.
Proof.
  intro H. unfold Num.nearest.
  assert (Qfloor (x * 100 + (1 # 2)) <= Qfloor (y * 100 + (1 # 2)))%Z as F
    by (apply Qfloor_resp_le; lra).
  rewrite Zle_Qle in F. qdiv. lra.
Qed.

Lemma nearest_nonneg (x : Q) : 0 <= x -> 0 <= Num.nearest x.
Proof.
  intro H. unfold Num.nearest.
  assert (0 <= Qfloor (x * 100 + (1 # 2)))%Z as F
    by (apply floor_above; change (inject_Z 0) with 0; lra).
  rewrite Zle_Qle in F. change (inject_Z 0) with 0 in F. qdiv. lra.
Qed.

(** A bound that is itself a whole number of hundredths is respected. *)
Lemma nearest_below (x : Q) (n : Z) :
  x <= inject_Z n / 100 -> Num.nearest x <= inject_Z n / 100.
Proof.
  intro H. unfold Num.nearest.
  assert (Qfloor (x * 100 + (1 # 2)) <= n)%Z as F
    by (apply floor_below; qdiv; lra).
  rewrite Zle_Qle in F. qdiv. lra.
Qed.


End Rounding.

Section ToFixed.

Lemma abs_cases (x : Q) : (0 <= x /\ Qabs x == x) \/ (x < 0 /\ Qabs x == - x).
Proof.
  destruct (Qlt_le_dec x 0) as [N | P].
  - right. split; [exact N | apply Qabs_neg; lra].
  - left. split; [exact P | now apply Qabs_pos].
Qed.

Lemma nearest_le_limit (x : Q) :
  x <= Num.fixed_limit -> Num.nearest x <= Num.fixed_limit.
Proof.
  intro H.
  assert (Num.fixed_limit == inject_Z (10 ^ 23) / 100) as E by reflexivity.
  rewrite E. apply nearest_below. now rewrite <- E.
Qed.

Lemma limit_test (x : Q) (b : bool) :
  Qle_bool Num.fixed_limit (Qabs x) = b ->
  if b then Num.fixed_limit <= Qabs x else Qabs x < Num.fixed_limit.
Proof.
  intros <-. destruct (Qle_bool Num.fixed_limit (Qabs x)) eqn:E.
  - now apply Qle_bool_iff.
  - apply Qnot_le_lt. intro H. apply Qle_bool_iff in H. congruence.
Qed.

Lemma sign_test (x : Q) (b : bool) :
  Num.ltb x 0 = b -> if b then x < 0 else 0 <= x.
Proof.
  intros <-. destruct (Num.ltb x 0) eqn:E.
  - now apply ltb_true.
  - now apply ltb_false.
Qed.

Lemma toFixed2_mono (x y : Q) : x <= y -> Num.toFixed2 x <= Num.toFixed2 y.
Proof.
  intro H. unfold Num.toFixed2.
  assert (0 < Num.fixed_limit) as Bpos by reflexivity.
  destruct (Qle_bool Num.fixed_limit (Qabs x)) eqn:Bx; apply limit_test in Bx;
    destruct (Qle_bool Num.fixed_limit (Qabs y)) eqn:By; apply limit_test in By;
    destruct (abs_cases x) as [[Px Ax] | [Nx Ax]];
    destruct (abs_cases y) as [[Py Ay] | [Ny Ay]];
    rewrite Ax in Bx; rewrite Ay in By; try lra;
    try (destruct (Num.ltb x 0) eqn:Sx; apply sign_test in Sx; try lra);
    try (destruct (Num.ltb y 0) eqn:Sy; apply sign_test in Sy; try lra).
  - pose proof (nearest_nonneg y Py). lra.
  - assert (- y <= Num.fixed_limit) as Hy by lra.
    pose proof (nearest_le_limit _ Hy). lra.
  - assert (x <= Num.fixed_limit) as Hx by lra.
    pose proof (nearest_le_limit _ Hx). lra.
  - assert (0 <= - x) as Hx by lra. pose proof (nearest_nonneg _ Hx). lra.
  - now apply nearest_mono.
  - assert (0 <= - x) as Hx by lra. pose proof (nearest_nonneg _ Hx).
    pose proof (nearest_nonneg y Py). lra.
  - assert (- y <= - x) as Hxy by lra. pose proof (nearest_mono _ _ Hxy). lra.
Qed.

Lemma toFixed2_compat (x y : Q) : x == y -> Num.toFixed2 x == Num.toFixed2 y.
Proof.
  intro E. apply Qle_antisym; apply toFixed2_mono; lra.
Qed.

Lemma toFixed2_small (x : Q) :
  0 <= x -> x <= 100 -> Num.toFixed2 x = Num.nearest x.
Proof.
  intros P U. unfold Num.toFixed2.
  assert (100 < Num.fixed_limit) as B by reflexivity.
  destruct (Qle_bool Num.fixed_limit (Qabs x)) eqn:Bx; apply limit_test in Bx.
  - rewrite (Qabs_pos x P) in Bx. lra.
  - destruct (Num.ltb x 0) eqn:Sx; apply sign_test in Sx; [lra | reflexivity].
Qed.

Lemma toFixed2_range (x : Q) :
  0 <= x -> x <= 100 -> 0 <= Num.toFixed2 x /\ Num.toFixed2 x <= 100.
Proof.
  intros P U. rewrite (toFixed2_small x P U). split.
  - now apply nearest_nonneg.
  - assert (100 == inject_Z 10000 / 100) as E by reflexivity.
    rewrite E. apply nearest_below. now rewrite <- E.
Qed.




End ToFixed.

(** ** Production effectiveness *)

Section ProductionEffectiveness.

Variable rt : Runtime.

Lemma ratingScore_range (avg : Q) :
  0 <= avg -> avg <= 5 -> 0 <= ratingScore avg /\ ratingScore avg <= 100.
Proof. unfold ratingScore. intros. qdiv. split; lra. Qed.

Lemma ratingScore_mono (a b : Q) : a <= b -> ratingScore a <= ratingScore b.
Proof. unfold ratingScore. intros. qdiv. lra. Qed.

Lemma roiScore_range (m : Movie) : 0 <= roiScore m /\ roiScore m <= 100.
Proof.
  unfold roiScore.
  destruct (Num.ltb 0 (budget m) && Num.ltb 0 (revenue m)); [| split; lra].
  set (v := (roi_of m + 50) / 2).
  destruct (Q.min_spec 100 (Qmax 0 v)) as [[K E] | [K E]];
    destruct (Q.max_spec 0 v) as [[L F] | [L F]]; rewrite E; rewrite ?F in *;
    split; lra.
Qed.

Lemma revenueScore_le (m : Movie) : revenueScore rt m <= 100.
Proof.
  unfold revenueScore. destruct (Num.ltb 0 (revenue m)); [| lra].
  apply Q.le_min_l.
Qed.

Lemma positive_integer (x : Q) : Num.isInteger x -> 0 < x -> 1 <= x.
Proof.
  intros [z E] P. rewrite E in *.
  change 0 with (inject_Z 0) in P. rewrite <- Zlt_Qlt in P.
  change 1 with (inject_Z 1). rewrite <- Zle_Qle. lia.
Qed.

Lemma revenueScore_nonneg (m : Movie) :
  (forall x, 1 <= x -> 0 <= log10 rt x) ->
  Num.isInteger (revenue m) -> 0 <= revenueScore rt m.
Proof.
  intros Hlog Hint. unfold revenueScore.
  destruct (Num.ltb 0 (revenue m)) eqn:P; [| lra].
  apply ltb_true in P.
  pose proof (Hlog _ (positive_integer _ Hint P)) as L.
  apply Q.min_glb; [lra | qdiv; lra].
Qed.

Lemma revenueScore_saturates (m : Movie) :
  (forall x, 1000000000 <= x -> 9 <= log10 rt x) ->
  1000000000 <= revenue m -> revenueScore rt m == 100.
Proof.
  intros Hlog R. unfold revenueScore.
  assert (Num.ltb 0 (revenue m) = true) as P by (apply ltb_true; lra).
  rewrite P. pose proof (Hlog _ R) as L.
  apply Q.min_l. qdiv. lra.
Qed.

Lemma weighted_sum_range (m : Movie) (avg : Q) :
  0 <= avg -> avg <= 5 -> 0 <= revenueScore rt m ->
  0 <= weighted_sum rt m avg /\ weighted_sum rt m avg <= 100.
Proof.
  intros A1 A2 R. unfold weighted_sum.
  pose proof (ratingScore_range avg A1 A2) as [? ?].
  pose proof (roiScore_range m) as [? ?].
  pose proof (revenueScore_le m).
  split; lra.
Qed.

Lemma weighted_sum_mono (m : Movie) (a b : Q) :
  a <= b -> weighted_sum rt m a <= weighted_sum rt m b.
Proof.
  intro H. unfold weighted_sum. pose proof (ratingScore_mono a b H). lra.
Qed.

End ProductionEffectiveness.

Section FixtureLog10.

Lemma count_digits_nonneg (fuel : nat) (n : Z) :
  (0 <= Fixture.count_digits fuel n)%Z.
Proof.
  revert n. induction fuel as [| fuel IH]; intro n;
    cbn [Fixture.count_digits]; [lia |].
  destruct (n <? 10)%Z; [lia |]. specialize (IH (n / 10)%Z). lia.
Qed.

Lemma count_digits_large (k fuel : nat) (n : Z) :
  (k <= fuel)%nat -> (10 ^ Z.of_nat k <= n)%Z ->
  (Z.of_nat k <= Fixture.count_digits fuel n)%Z.
Proof.
  revert fuel n. induction k as [| k IH]; intros fuel n Hk Hn.
  - apply count_digits_nonneg.
  - destruct fuel as [| fuel]; [lia |].
    rewrite Nat2Z.inj_succ, Z.pow_succ_r in Hn by lia.
    assert (0 < 10 ^ Z.of_nat k)%Z by (apply Z.pow_pos_nonneg; lia).
    cbn [Fixture.count_digits].
    destruct (Z.ltb_spec n 10); [lia |].
    assert (10 ^ Z.of_nat k <= n / 10)%Z
      by (apply Z.div_le_lower_bound; lia).
    specialize (IH fuel (n / 10)%Z). lia.
Qed.

Lemma digits_log10_nonneg (x : Q) : 0 <= Fixture.digits_log10 x.
Proof.
  unfold Fixture.digits_log10. change 0 with (inject_Z 0).
  rewrite <- Zle_Qle. apply count_digits_nonneg.
Qed.

Lemma digits_log10_large (x : Q) :
  1000000000 <= x -> 9 <= Fixture.digits_log10 x.
Proof.
  intro H. unfold Fixture.digits_log10. change 9 with (inject_Z 9).
  rewrite <- Zle_Qle.
  apply (count_digits_large 9); [lia |].
  change (10 ^ Z.of_nat 9)%Z with 1000000000%Z.
  apply floor_above. exact H.
Qed.

End FixtureLog10.

Section ProductionEffectivenessClaims.

(** C1, as stated, fails: the revenue component is the result of
    [Math.min(100, ...)], so no movie has a revenue score above 100. *)
Lemma revenueScore_above_100_refuted :
  ~ (exists (rt : Runtime) (m : Movie),
        1000000000 < revenue m /\ 0 < budget m /\ 0 < revenue m /\
        100 < revenueScore rt m).
Proof.
  intros (rt & m & _ & _ & _ & H).
  pose proof (revenueScore_le rt m). lra.
Qed.

(** C1 (amended): for every movie with revenue strictly above 10^9 and a
    positive budget the revenue component is clamped to exactly 100, no
    movie has a revenue component above 100, and for an average rating in
    [0, 5] the final score stays within [0, 100]. The logarithm is only
    required to be at least 9 from 10^9 on. *)
Theorem revenueScore_clamped (rt : Runtime) (m : Movie) (avg : Q) :
  (forall x, 1000000000 <= x -> 9 <= log10 rt x) ->
  1000000000 < revenue m -> 0 < budget m ->
  0 <= avg -> avg <= 5 ->
  revenueScore rt m == 100 /\
  (forall m' : Movie, revenueScore rt m' <= 100) /\
  0 <= calculateProductionEffectiveness rt m avg /\
  calculateProductionEffectiveness rt m avg <= 100.
Proof.
  intros Hlog R B A1 A2.
  assert (revenueScore rt m == 100) as S
    by (apply revenueScore_saturates; [exact Hlog | lra]).
  split; [exact S |]. split; [apply revenueScore_le |].
  unfold calculateProductionEffectiveness.
  apply toFixed2_range; apply weighted_sum_range; trivial; lra.
Qed.

Lemma revenueScore_clamped_witness :
  revenueScore Fixture.runtime Fixture.record_breaker == 100 /\
  (forall m' : Movie, revenueScore Fixture.runtime m' <= 100) /\
  0 <= calculateProductionEffectiveness Fixture.runtime Fixture.record_breaker 5 /\
  calculateProductionEffectiveness Fixture.runtime Fixture.record_breaker 5 <= 100.
Proof.
  apply (revenueScore_clamped Fixture.runtime Fixture.record_breaker 5).
  - exact digits_log10_large.
  - reflexivity.
  - reflexivity.
  - discriminate.
  - discriminate.
Defined.



(** C8: with budget and revenue fixed the score is non-decreasing in the
    average rating; for an average rating of 5, a budget of 100 and a
    revenue of 10^9 the three components are 100 and the total is 100.00.
    The logarithm is only required to map 10^9 to 9. *)
Theorem calculateProductionEffectiveness_monotone (rt : Runtime) :
  log10 rt 1000000000 == 9 ->
  (forall (m : Movie) (a b : Q),
      a <= b ->
      calculateProductionEffectiveness rt m a
      <= calculateProductionEffectiveness rt m b) /\
  (forall m : Movie,
      budget m = 100 -> revenue m = 1000000000 ->
      roiScore m == 100 /\ revenueScore rt m == 100 /\ ratingScore 5 == 100 /\
      calculateProductionEffectiveness rt m 5 == 100).
Proof.
  intro Hlog. split.
  - intros m a b H. unfold calculateProductionEffectiveness.
    apply toFixed2_mono. now apply weighted_sum_mono.
  - intros m Hb Hr.
    assert (roiScore m == 100) as S1
      by (unfold roiScore, roi_of; rewrite Hb, Hr; reflexivity).
    assert (revenueScore rt m == 100) as S2.
    { unfold revenueScore. rewrite Hr. simpl Num.ltb. cbv iota.
      apply Q.min_l. qdiv. lra. }
    assert (ratingScore 5 == 100) as S3 by reflexivity.
    repeat split; trivial.
    unfold calculateProductionEffectiveness.
    assert (weighted_sum rt m 5 == 100) as W
      by (unfold weighted_sum; rewrite S1, S2, S3; reflexivity).
    rewrite (toFixed2_compat _ _ W). reflexivity.
Qed.

Lemma calculateProductionEffectiveness_monotone_witness :
  calculateProductionEffectiveness Fixture.runtime Fixture.blockbuster 5 == 100.
Proof.
  apply (calculateProductionEffectiveness_monotone Fixture.runtime);
    reflexivity.
Defined.

End ProductionEffectivenessClaims.

(** ** Selection of the movies to enrich *)

Section Selection.

Lemma in_firstn {A : Type} (n : nat) (l : list A) (a : A) :
  In a (firstn n l) -> In a l.
Proof.
  intro H. rewrite <- (firstn_skipn n l). apply in_or_app. now left.
Qed.

Lemma in_skipn {A : Type} (n : nat) (l : list A) (a : A) :
  In a (skipn n l) -> In a l.
Proof.
  intro H. rewrite <- (firstn_skipn n l). apply in_or_app. now right.
Qed.

Lemma filter_nonempty_existsb {A : Type} (p : A -> bool) (l : list A) :
  (0 <? List.length (filter p l))%nat = existsb p l.
Proof.
  induction l as [| a l IH]; [reflexivity |].
  simpl. destruct (p a); [reflexivity | exact IH].
Qed.

(** The test of the loop, in terms of the quota. *)
Lemma length_ge_quota (n : nat) (limit : Num.number) :
  Num.length_ge n limit = true <->
  exists k : nat, quota limit = Some k /\ (k <= n)%nat.
Proof.
  destruct limit as [q | | |]; cbn.
  - rewrite Qle_bool_iff. unfold Num.of_nat. split.
    + intro H. eexists. split; [reflexivity |].
      apply Qceiling_resp_le in H. rewrite Qceiling_Z in H. lia.
    + intros (k & E & H). injection E as <-.
      pose proof (Qle_ceiling q) as C.
      assert (Qceiling q <= Z.of_nat n)%Z as L by lia.
      rewrite Zle_Qle in L. lra.
  - split; [discriminate | intros (k & E & _); discriminate].
  - split; [discriminate | intros (k & E & _); discriminate].
  - split; [intros _; exists 0%nat; split; [reflexivity | lia] | reflexivity].
Qed.

Lemma length_ge_reached (n : nat) (limit : Num.number) :
  Num.length_ge n limit = true <-> reached limit n.
Proof.
  destruct limit as [q | | |]; cbn; try tauto.
  - apply Qle_bool_iff.
  - split; [discriminate | contradiction].
  - split; [discriminate | contradiction].
Qed.

Lemma select_loop_run (limit : Num.number) (w : World) (catalog acc : list Movie) :
  select_loop limit catalog acc w =
  (Ok (acc ++ match quota limit with
              | Some k => firstn (k - List.length acc)
                            (filter (has_ratings (db w)) catalog)
              | None => filter (has_ratings (db w)) catalog
              end), w).
Proof.
  revert acc. induction catalog as [| m rest IH]; intro acc.
  - simpl. unfold ret. destruct (quota limit); now rewrite ?firstn_nil, app_nil_r.
  - cbn [select_loop].
    destruct (Num.length_ge (List.length acc) limit) eqn:Full.
    + apply length_ge_quota in Full. destruct Full as (k & -> & Hk).
      unfold ret. replace (k - List.length acc)%nat with 0%nat by lia.
      now rewrite firstn_O, app_nil_r.
    + unfold bind, getAverageRatingForMovie. cbn [count].
      rewrite filter_nonempty_existsb. cbn [filter].
      fold (has_ratings (db w) m).
      destruct (has_ratings (db w) m); [| apply IH].
      rewrite IH, length_app. cbn [List.length].
      destruct (quota limit) as [k |] eqn:Q.
      * assert (List.length acc < k)%nat as Room.
        { destruct (Nat.lt_ge_cases (List.length acc) k) as [L | G]; [exact L |].
          assert (Num.length_ge (List.length acc) limit = true) as T
            by (apply length_ge_quota; now exists k).
          congruence. }
        replace (k - List.length acc)%nat
          with (S (k - (List.length acc + 1)))%nat by lia.
        cbn [firstn]. now rewrite <- app_assoc.
      * now rewrite <- app_assoc.
Qed.

Lemma selectMoviesWithRatings_run (limit : Num.number) (w : World) :
  selectMoviesWithRatings limit w
  = (Ok (up_to (quota limit) (filter (has_ratings (db w)) (movies (db w)))), w).
Proof.
  unfold selectMoviesWithRatings, bind, getMovies.
  rewrite select_loop_run. cbn [List.length app]. unfold up_to.
  destruct (quota limit); now rewrite ?Nat.sub_0_r.
Qed.

Lemma in_up_to {A : Type} (k : option nat) (l : list A) (a : A) :
  In a (up_to k l) -> In a l.
Proof. destruct k; [apply in_firstn | trivial]. Qed.

Lemma firstn_filter_scan {A : Type} (p : A -> bool) (n : nat) (l : list A) :
  exists scanned rest,
    l = scanned ++ rest /\
    firstn n (filter p l) = filter p scanned /\
    (rest = [] \/ (n <= List.length (filter p scanned))%nat).
Proof.
  revert n. induction l as [| a l IH]; intro n.
  - exists [], []. rewrite firstn_nil. auto.
  - destruct n as [| n].
    + exists [], (a :: l). simpl. auto with arith.
    + simpl. destruct (p a) eqn:Pa.
      * destruct (IH n) as (scanned & rest & -> & E & Stop).
        exists (a :: scanned), rest. simpl. rewrite Pa, E. simpl.
        repeat split; trivial. destruct Stop; [auto | right; lia].
      * destruct (IH (S n)) as (scanned & rest & -> & E & Stop).
        exists (a :: scanned), rest. simpl. rewrite Pa.
        repeat split; trivial.
Qed.

Lemma selection_stops_early (limit : Num.number) (k n : nat) :
  quota limit = Some k -> (n < k)%nat -> ~ reached limit n.
Proof.
  intros Q L R. apply length_ge_reached, length_ge_quota in R.
  destruct R as (k' & E & H). rewrite Q in E. injection E as <-. lia.
Qed.

(** C6 (amended): the selection scans the catalog in storage order, admits
    exactly the scanned movies that have a rating and stops at the end of
    the catalog or as soon as the number of movies admitted is greater than
    or equal to the limit, not before; a movie without a rating is never
    selected. For a limit that is a natural number n the movies selected
    are the first n that have a rating, at most n of them; a limit that is
    NaN is never reached, and every movie that has a rating is selected. *)
Theorem selectMoviesWithRatings_scan (limit : Num.number) (w : World) :
  let eligible := filter (has_ratings (db w)) (movies (db w)) in
  exists selected : list Movie,
    selectMoviesWithRatings limit w = (Ok selected, w) /\
    (exists scanned rest : list Movie,
        movies (db w) = scanned ++ rest /\
        selected = filter (has_ratings (db w)) scanned /\
        (rest = [] \/ reached limit (List.length selected))) /\
    (forall n : nat, (n < List.length selected)%nat -> ~ reached limit n) /\
    (forall m, In m selected ->
               In m (movies (db w)) /\ has_ratings (db w) m = true) /\
    (forall m, has_ratings (db w) m = false -> ~ In m selected) /\
    (forall n : nat,
        limit = Num.Finite (Num.of_nat n) ->
        selected = firstn n eligible /\ at_most (List.length selected) limit) /\
    (limit = Num.NaN -> selected = eligible).
Proof.
  intro eligible.
  eexists. split; [apply selectMoviesWithRatings_run |]. fold eligible.
  assert (forall m, In m (up_to (quota limit) eligible) ->
                    In m (movies (db w)) /\ has_ratings (db w) m = true) as Sel.
  { intros m Hm. apply in_up_to in Hm. now apply filter_In in Hm. }
  split; [| split; [| split; [exact Sel | split; [| split]]]].
  - destruct (quota limit) as [k |] eqn:Q; cbn [up_to].
    + destruct (firstn_filter_scan (has_ratings (db w)) k (movies (db w)))
        as (scanned & rest & E & F & Stop).
      exists scanned, rest. fold eligible in F. rewrite F.
      repeat split; trivial. destruct Stop as [Stop | Stop]; [auto | right].
      apply length_ge_reached, length_ge_quota. now exists k.
    + exists (movies (db w)), []. rewrite app_nil_r. auto.
  - intros n Hn. destruct (quota limit) as [k |] eqn:Q; cbn [up_to] in Hn.
    + apply (selection_stops_early limit k n Q).
      pose proof (firstn_le_length k eligible). lia.
    + intro R. apply length_ge_reached, length_ge_quota in R.
      destruct R as (k & E & _). congruence.
  - intros m No Hm. apply Sel in Hm. destruct Hm. congruence.
  - intros n ->. cbn [quota up_to at_most]. unfold Num.of_nat.
    rewrite Qceiling_Z, Nat2Z.id. split; [reflexivity |].
    rewrite <- Zle_Qle. pose proof (firstn_le_length n eligible). lia.
  - intros ->. reflexivity.
Qed.

End Selection.

(** C6, as stated, fails: a limit that is NaN (what [parseInt] returns on a
    text without a digit, and what the bounds 1 and 200 of the route let
    through) is never reached, so that both rated movies of the catalog are
    selected although 2 is not at most NaN; a limit of -1 is reached at
    once, and the empty selection has more than -1 entries. *)
Lemma selectMoviesWithRatings_at_most_refuted :
  selectMoviesWithRatings Num.NaN Fixture.fresh
  = (Ok [Fixture.first_film; Fixture.blockbuster], Fixture.fresh) /\
  ~ at_most 2 Num.NaN /\
  selectMoviesWithRatings (Num.Finite (-1)) Fixture.fresh = (Ok [], Fixture.fresh) /\
  ~ at_most 0 (Num.Finite (-1)).
Proof.
  split; [reflexivity |]. split; [intros [] |]. split; [reflexivity |].
  intro H. vm_compute in H. now apply H.
Qed.

Lemma selectMoviesWithRatings_scan_witness :
  selectMoviesWithRatings (Num.Finite 1) Fixture.fresh
  = (Ok [Fixture.first_film], Fixture.fresh).
Proof.
  destruct (selectMoviesWithRatings_scan (Num.Finite 1) Fixture.fresh)
    as (selected & Run & _ & _ & _ & _ & Nat & _).
  destruct (Nat 1%nat eq_refl) as [-> _]. exact Run.
Defined.

(** ** Attributes returned by the completion service *)

Section LLMEnrichments.

Variable rt : Runtime.

Lemma assoc_missing (k : string) (fields : list (string * json)) :
  existsb (fun kv => (fst kv =? k)%string) fields = false ->
  JS.assoc k fields = None.
Proof.
  induction fields as [| [k' v] rest IH]; [reflexivity |].
  simpl. rewrite String.eqb_sym. destruct (k =? k')%string; [discriminate |].
  exact IH.
Qed.

Lemma get_missing (parsed : json) (k : string) (v : option json) :
  has_key parsed k = false -> JS.get parsed k = Ok v -> v = None.
Proof.
  destruct parsed; simpl; intros Hk Hg; try congruence.
  apply assoc_missing in Hk. congruence.
Qed.

Lemma or_truthy (v : option json) (d : json) :
  JS.truthy d = true -> JS.truthy (JS.or v d) = true.
Proof.
  intro Hd. destruct v as [j |]; simpl; [| exact Hd].
  destruct (JS.truthy j) eqn:E; [exact E | exact Hd].
Qed.

Lemma truthy_number (q : Q) : JS.truthy (JNum q) = true -> ~ q == 0.
Proof.
  simpl. rewrite negb_true_iff. intros H E.
  apply Qeq_bool_iff in E. congruence.
Qed.

(** The body of the [try] of [getLLMEnrichments], as a pure function of
    the content. *)
Lemma getLLMEnrichments_run (input : EnrichmentInput) (w : World) :
  getLLMEnrichments rt input w =
  match completion rt (List.length (sent w)) (EnrichmentPrompt input) with
  | Throw e => (Throw e, after_prompt w (EnrichmentPrompt input))
  | Ok response =>
      (Ok match JSON_parse rt (trimmed_or response "{}") with
          | Ok (JObj fields) =>
              mkLLMEnrichments
                (JS.or (JS.assoc "awardPotential" fields) (JStr "Medium"))
                (JS.or (JS.assoc "popularityQualityIndex" fields) (JNum 50))
                (JS.or (JS.assoc "emotionalGenres" fields) (JStr "emotional"))
          | _ => default_enrichments
          end,
       after_prompt w (EnrichmentPrompt input))
  end.
Proof.
  unfold getLLMEnrichments, bind, createCompletion, try_catch, lift, ret.
  fold (after_prompt w (EnrichmentPrompt input)).
  destruct (completion rt _ _) as [response | e]; [| reflexivity].
  destruct (JSON_parse rt (trimmed_or response "{}")) as [parsed | e];
    [| reflexivity].
  destruct parsed; reflexivity.
Qed.

Lemma getLLMEnrichments_truthy (input : EnrichmentInput) (w w' : World)
    (out : LLMEnrichments) :
  getLLMEnrichments rt input w = (Ok out, w') ->
  JS.truthy (llm_awardPotential out) = true /\
  JS.truthy (llm_popularityQualityIndex out) = true /\
  JS.truthy (llm_emotionalGenres out) = true.
Proof.
  rewrite getLLMEnrichments_run.
  destruct (completion rt _ _) as [response | e]; [| discriminate].
  intro H. injection H as <- _.
  destruct (JSON_parse rt _) as [[ | | | | | fields] | e]; simpl;
    repeat split; trivial; now apply or_truthy.
Qed.

(** C7: whatever text the completion service answers, the item does not
    fail on it: a text that does not parse gives the three defaults, and in
    a text that parses every key that is missing gets its default. *)
Theorem getLLMEnrichments_defaults (input : EnrichmentInput) (w : World)
    (response : option string) :
  completion rt (List.length (sent w)) (EnrichmentPrompt input) = Ok response ->
  exists out : LLMEnrichments,
    getLLMEnrichments rt input w
    = (Ok out, after_prompt w (EnrichmentPrompt input)) /\
    (forall e, JSON_parse rt (trimmed_or response "{}") = Throw e ->
               out = mkLLMEnrichments (JStr "Medium") (JNum 50) (JStr "emotional")) /\
    (forall parsed, JSON_parse rt (trimmed_or response "{}") = Ok parsed ->
       (has_key parsed "awardPotential" = false ->
        llm_awardPotential out = JStr "Medium") /\
       (has_key parsed "popularityQualityIndex" = false ->
        llm_popularityQualityIndex out = JNum 50) /\
       (has_key parsed "emotionalGenres" = false ->
        llm_emotionalGenres out = JStr "emotional")).
Proof.
  intro Hc. rewrite getLLMEnrichments_run, Hc.
  eexists. split; [reflexivity |]. split.
  - intros e He. rewrite He. reflexivity.
  - intros parsed Hp. rewrite Hp.
    destruct parsed as [ | | | | | fields]; simpl;
      repeat split; trivial;
      intro Hk; apply assoc_missing in Hk; rewrite Hk; reflexivity.
Qed.

End LLMEnrichments.

Lemma getLLMEnrichments_defaults_witness :
  getLLMEnrichments Fixture.runtime
    (mkEnrichmentInput Fixture.unrated 0 0 None) Fixture.fresh
  = (Ok (mkLLMEnrichments (JStr "Medium") (JNum 50) (JStr "emotional")),
     after_prompt Fixture.fresh
       (EnrichmentPrompt (mkEnrichmentInput Fixture.unrated 0 0 None))).
Proof.
  destruct (getLLMEnrichments_defaults Fixture.runtime
              (mkEnrichmentInput Fixture.unrated 0 0 None) Fixture.fresh
              (Some "I cannot rate this film."%string))
    as (out & H & Hd & _).
  - reflexivity.
  - rewrite <- (Hd SyntaxError); [exact H | reflexivity].
Defined.

(** ** The batch loop *)

Section Batch.

Variable rt : Runtime.

Lemma calculateCompanyROI_frame (target : Movie) (w : World) :
  exists r : option Q, calculateCompanyROI rt target w = (Ok r, w).
Proof.
  unfold calculateCompanyROI.
  destruct (_ || _); [eexists; reflexivity |].
  unfold bind, try_catch, lift, ret, getMovies.
  destruct (JSON_parse rt (productionCompanies target)) as [parsed | e];
    [| eexists; reflexivity].
  destruct (company_names parsed) as [[| primary others] | e];
    eexists; reflexivity.
Qed.

Lemma enrichSingleMovie_cases (m : Movie) (w : World) :
  exists p : Prompt,
    snd (enrichSingleMovie rt m w) = after_prompt w p /\
    match fst (enrichSingleMovie rt m w) with
    | Ok e =>
        enrichment_movieId e = movieId m /\
        JS.truthy (awardPotential e) = true /\
        JS.truthy (popularityQualityIndex e) = true /\
        JS.truthy (emotionalGenres e) = true
    | Throw _ => True
    end.
Proof.
  unfold enrichSingleMovie, bind, getAverageRatingForMovie. cbn [count].
  destruct (calculateCompanyROI_frame m w) as [roi ->].
  match goal with
  | |- context [getLLMEnrichments rt ?i w] => set (input := i)
  end.
  exists (EnrichmentPrompt input).
  destruct (getLLMEnrichments rt input w) as [[out | e] w'] eqn:E.
  - pose proof (getLLMEnrichments_truthy rt _ _ _ _ E) as T.
    rewrite getLLMEnrichments_run in E.
    destruct (completion rt _ _); [| discriminate].
    injection E as _ <-. unfold ret. cbn. tauto.
  - rewrite getLLMEnrichments_run in E.
    destruct (completion rt _ _); [discriminate |].
    injection E as _ <-. cbn. tauto.
Qed.

(** What one item of the batch does to the world. *)
Lemma enrich_item_cases (m : Movie) (w : World) :
  let (r, w') := enrich_item rt m w in
  movies (db w') = movies (db w) /\
  ratings (db w') = ratings (db w) /\
  match r with
  | Ok e =>
      movie_enrichments (db w') = upsert (stored rt e) (movie_enrichments (db w)) /\
      enrichment_movieId e = movieId m /\
      JS.truthy (popularityQualityIndex e) = true
  | Throw _ => movie_enrichments (db w') = movie_enrichments (db w)
  end.
Proof.
  unfold enrich_item, bind.
  destruct (enrichSingleMovie_cases m w) as (p & Hw & He).
  destruct (enrichSingleMovie rt m w) as [[e | x] w1]; cbn [fst snd] in *; subst w1.
  - unfold saveEnrichment, ret.
    destruct (storage_fault rt _ e); cbn; tauto.
  - cbn. tauto.
Qed.

Lemma succeeded_cons (m : Movie) (r : result MovieEnrichment)
    (trace : list (Movie * result MovieEnrichment)) :
  succeeded ((m, r) :: trace)
  = match r with Ok e => e :: succeeded trace | Throw _ => succeeded trace end /\
  succeeded_movies ((m, r) :: trace)
  = match r with
    | Ok _ => m :: succeeded_movies trace
    | Throw _ => succeeded_movies trace
    end.
Proof. destruct r; split; reflexivity. Qed.

(** The loop returns the records of the items that succeeded, in order, and
    has written exactly these. *)
Lemma enrich_loop_run (selected : list Movie) :
  forall (acc : list MovieEnrichment) (w : World),
  exists w' : World,
    enrich_loop rt selected acc w
    = (Ok (acc ++ succeeded (item_outcomes rt selected w)), w') /\
    movies (db w') = movies (db w) /\
    ratings (db w') = ratings (db w) /\
    movie_enrichments (db w')
    = written rt (succeeded (item_outcomes rt selected w)) (movie_enrichments (db w)).
Proof.
  induction selected as [| m rest IH]; intros acc w.
  - exists w. cbn. unfold ret. now rewrite app_nil_r.
  - cbn [enrich_loop item_outcomes]. unfold bind at 1, try_catch, bind at 1.
    pose proof (enrich_item_cases m w) as C.
    destruct (enrich_item rt m w) as [[e | x] w1];
      destruct C as (Hm & Hr & C); unfold ret.
    + destruct C as (C & _).
      destruct (IH (acc ++ [e]) w1) as (w' & -> & Hm' & Hr' & Ht).
      exists w'.
      rewrite (proj1 (succeeded_cons m (Ok e) (item_outcomes rt rest w1))).
      cbn [written fold_left].
      fold (written rt (succeeded (item_outcomes rt rest w1))).
      rewrite <- app_assoc, Ht, C. repeat split; congruence.
    + destruct (IH acc w1) as (w' & -> & Hm' & Hr' & Ht).
      exists w'.
      rewrite (proj1 (succeeded_cons m (Throw x) (item_outcomes rt rest w1))).
      rewrite Ht, C. repeat split; congruence.
Qed.

Lemma item_outcomes_movies (selected : list Movie) (w : World) :
  map fst (item_outcomes rt selected w) = selected.
Proof.
  revert w. induction selected as [| m rest IH]; intro w; [reflexivity |].
  cbn [item_outcomes]. destruct (enrich_item rt m w) as [r w1].
  cbn. now rewrite IH.
Qed.

Lemma succeeded_failures (trace : list (Movie * result MovieEnrichment)) :
  (List.length (succeeded trace) + failures trace = List.length trace)%nat.
Proof.
  unfold failures, succeeded.
  induction trace as [| [m [e | x]] rest IH];
    cbn [flat_map filter snd app List.length]; lia.
Qed.

Lemma succeeded_movies_incl (trace : list (Movie * result MovieEnrichment)) (m : Movie) :
  In m (succeeded_movies trace) -> In m (map fst trace).
Proof.
  induction trace as [| [m' [e | x]] rest IH]; cbn; tauto.
Qed.

Lemma succeeded_movies_NoDup (trace : list (Movie * result MovieEnrichment)) :
  NoDup (map movieId (map fst trace)) ->
  NoDup (map movieId (succeeded_movies trace)).
Proof.
  induction trace as [| [m [e | x]] rest IH]; cbn; intro H;
    inversion H as [| ? ? Hn Hr]; subst; auto.
  constructor; auto. intro Hin. apply Hn.
  apply in_map_iff in Hin. destruct Hin as (m' & E & Hin).
  apply succeeded_movies_incl in Hin. rewrite <- E. now apply in_map.
Qed.

(** Every row written by the batch belongs to the movie it was computed
    for and carries a truthy index. *)
Lemma succeeded_rows (selected : list Movie) (w : World) :
  map enrichment_movieId (succeeded (item_outcomes rt selected w))
  = map movieId (succeeded_movies (item_outcomes rt selected w)) /\
  Forall (fun e => JS.truthy (popularityQualityIndex e) = true)
         (succeeded (item_outcomes rt selected w)).
Proof.
  revert w. induction selected as [| m rest IH]; intro w.
  - cbn. auto.
  - cbn [item_outcomes]. pose proof (enrich_item_cases m w) as C.
    destruct (enrich_item rt m w) as [r w1].
    destruct (IH w1) as [Ids Tr].
    destruct (succeeded_cons m r (item_outcomes rt rest w1)) as [-> ->].
    destruct r as [e | x]; [| auto].
    destruct C as (_ & _ & _ & Id & T). cbn [map]. rewrite Id, Ids. auto.
Qed.

Lemma insert_row_perm (e : MovieEnrichment) (table : list MovieEnrichment) :
  Permutation (insert_row e table) (e :: table).
Proof.
  induction table as [| r rest IH]; [reflexivity |].
  cbn [insert_row].
  destruct (enrichment_movieId e <? enrichment_movieId r)%Z; [reflexivity |].
  rewrite IH. apply perm_swap.
Qed.

Lemma filter_other_keys (id : Z) (table : list MovieEnrichment) :
  ~ In id (map enrichment_movieId table) ->
  filter (fun r => negb (enrichment_movieId r =? id)%Z) table = table.
Proof.
  induction table as [| r table IH]; [reflexivity |].
  cbn. intro H. destruct (Z.eqb_spec (enrichment_movieId r) id).
  - tauto.
  - cbn. f_equal. tauto.
Qed.

Lemma upsert_fresh (e : MovieEnrichment) (table : list MovieEnrichment) :
  ~ In (enrichment_movieId e) (map enrichment_movieId table) ->
  Permutation (upsert e table) (e :: table).
Proof.
  intro H. unfold upsert. rewrite (filter_other_keys _ _ H).
  apply insert_row_perm.
Qed.

Lemma written_length (es table : list MovieEnrichment) :
  NoDup (map enrichment_movieId es) ->
  (forall e, In e es -> ~ In (enrichment_movieId e) (map enrichment_movieId table)) ->
  List.length (written rt es table) = (List.length table + List.length es)%nat.
Proof.
  revert table. induction es as [| e es IH]; intros table Hn Hf.
  - cbn. lia.
  - cbn [written fold_left]. fold (written rt es (upsert (stored rt e) table)).
    inversion Hn as [| ? ? Hne Hn']; subst.
    assert (Permutation (upsert (stored rt e) table) (stored rt e :: table)) as P
      by (apply upsert_fresh, (Hf e); now left).
    rewrite IH; trivial.
    + rewrite (Permutation_length P). cbn. lia.
    + intros e' He' Hin.
      apply (Permutation_in _ (Permutation_map enrichment_movieId P)) in Hin.
      destruct Hin as [E | Hin].
      * apply Hne. cbn in E. rewrite E. now apply in_map.
      * apply (Hf e'); [now right | exact Hin].
Qed.

(** C3: when exactly one item of the selected batch fails (in the
    completion request or in the write), the call returns normally; the
    list returned holds the records of the other items in processing order,
    N-1 of them; these records are exactly the rows written (each as the
    columns of the table keep it), which makes N-1 rows in a table that was
    empty (movie identifiers being distinct). *)
Theorem enrichMovies_partial_failure (movieCount : Num.number) (w : World)
    (selected : list Movie) :
  selectMoviesWithRatings movieCount w = (Ok selected, w) ->
  failures (item_outcomes rt selected w) = 1%nat ->
  exists (enrichments : list MovieEnrichment) (w' : World),
    enrichMovies rt movieCount w = (Ok enrichments, w') /\
    enrichments = succeeded (item_outcomes rt selected w) /\
    map enrichment_movieId enrichments
    = map movieId (succeeded_movies (item_outcomes rt selected w)) /\
    List.length enrichments = (List.length selected - 1)%nat /\
    movie_enrichments (db w') = written rt enrichments (movie_enrichments (db w)) /\
    (movie_enrichments (db w) = [] ->
     NoDup (map movieId selected) ->
     List.length (movie_enrichments (db w')) = (List.length selected - 1)%nat).
Proof.
  intros Hsel Hfail.
  destruct (enrich_loop_run selected [] w) as (w' & Hrun & _ & _ & Htable).
  set (trace := item_outcomes rt selected w) in *.
  assert (List.length (succeeded trace) = (List.length selected - 1)%nat) as Hlen.
  { pose proof (succeeded_failures trace) as L.
    rewrite <- (item_outcomes_movies selected w) at 1.
    fold trace. rewrite length_map. lia. }
  exists (succeeded trace), w'.
  split.
  { unfold enrichMovies, bind at 1. rewrite Hsel.
    unfold bind, initializeEnrichmentTable, ret. exact Hrun. }
  split; [reflexivity |].
  split; [apply succeeded_rows |].
  split; [exact Hlen |].
  split; [exact Htable |].
  intros Hempty Hnodup. rewrite Htable, Hempty, written_length.
  - cbn. exact Hlen.
  - unfold trace. destruct (succeeded_rows selected w) as [-> _].
    apply succeeded_movies_NoDup. now rewrite item_outcomes_movies.
  - intros e _ [].
Qed.

End Batch.

Lemma enrichMovies_partial_failure_witness :
  exists (enrichments : list MovieEnrichment) (w' : World),
    enrichMovies Fixture.runtime (Num.Finite 75) Fixture.fresh
    = (Ok enrichments, w') /\
    List.length enrichments = 1%nat /\
    List.length (movie_enrichments (db w')) = 1%nat.
Proof.
  destruct (enrichMovies_partial_failure Fixture.runtime (Num.Finite 75)
              Fixture.fresh
              [Fixture.first_film; Fixture.blockbuster])
    as (enrichments & w' & Hrun & _ & _ & Hlen & _ & Hrows).
  - reflexivity.
  - reflexivity.
  - exists enrichments, w'. split; [exact Hrun |]. split; [exact Hlen |].
    apply Hrows; [reflexivity |].
    repeat constructor; cbn; intuition discriminate.
Defined.

(** ** Falsy attributes *)

Section FalsyAttributes.

Variable rt : Runtime.

(** What the REAL column keeps of a truthy index: a stored 0 comes from a
    text, never from the number 0. *)
Lemma stored_zero_from_text (v : json) (q : Q) :
  JS.truthy v = true ->
  real_column rt (bound_value rt v) = JNum q -> q == 0 ->
  exists (s : string) (n : Q),
    bound_text rt v = Some s /\ numeric_text rt s = Some n /\ n == 0.
Proof.
  intros T S Z.
  destruct v as [| b | x | s | items | fields]; cbn in T, S |- *.
  - discriminate.
  - subst b. injection S as <-. discriminate Z.
  - injection S as <-. apply negb_true_iff in T.
    apply Qeq_bool_iff in Z. congruence.
  - destruct (numeric_text rt s) as [n |] eqn:N; [| discriminate].
    injection S as <-. now exists s, n.
  - destruct (numeric_text rt _) as [n |] eqn:N; [| discriminate].
    injection S as <-. eexists; exists n. eauto.
  - destruct (numeric_text rt _) as [n |] eqn:N; [| discriminate].
    injection S as <-. eexists; exists n. eauto.
Qed.

(** C9 (amended): in a well-formed answer an index equal to the number 0,
    an empty award category and an empty list of tones are replaced by 50,
    'Medium' and 'emotional'; the index returned is never the number 0, and
    neither is the index of a record that a batch hands to the store. The
    row kept for a record carries the index 0 only when the index of the
    record is a text (a string, or the text of an array or an object) that
    the REAL column reads as the number zero. *)
Theorem getLLMEnrichments_falsy_replaced (input : EnrichmentInput) (w : World)
    (response : option string) (fields : list (string * json)) :
  completion rt (List.length (sent w)) (EnrichmentPrompt input) = Ok response ->
  JSON_parse rt (trimmed_or response "{}") = Ok (JObj fields) ->
  exists out : LLMEnrichments,
    getLLMEnrichments rt input w
    = (Ok out, after_prompt w (EnrichmentPrompt input)) /\
    (forall q, JS.assoc "popularityQualityIndex" fields = Some (JNum q) ->
               q == 0 -> llm_popularityQualityIndex out = JNum 50) /\
    (JS.assoc "awardPotential" fields = Some (JStr EmptyString) ->
     llm_awardPotential out = JStr "Medium") /\
    (JS.assoc "emotionalGenres" fields = Some (JStr EmptyString) ->
     llm_emotionalGenres out = JStr "emotional") /\
    (forall q, llm_popularityQualityIndex out = JNum q -> ~ q == 0) /\
    (forall (movieCount : Num.number) (w0 w' : World)
            (enrichments : list MovieEnrichment),
        enrichMovies rt movieCount w0 = (Ok enrichments, w') ->
        movie_enrichments (db w')
        = written rt enrichments (movie_enrichments (db w0)) /\
        forall e, In e enrichments ->
          (forall q, popularityQualityIndex e = JNum q -> ~ q == 0) /\
          (forall q, popularityQualityIndex (stored rt e) = JNum q -> q == 0 ->
             exists (s : string) (n : Q),
               bound_text rt (popularityQualityIndex e) = Some s /\
               numeric_text rt s = Some n /\ n == 0)).
Proof.
  intros Hc Hp.
  pose proof (getLLMEnrichments_run rt input w) as Hrun.
  rewrite Hc, Hp in Hrun.
  eexists. split; [exact Hrun |]. cbn.
  split; [| split; [| split; [| split]]].
  - intros q -> Hq. cbn. apply Qeq_bool_iff in Hq. now rewrite Hq.
  - intros ->. reflexivity.
  - intros ->. reflexivity.
  - intros q Hq. apply truthy_number. rewrite <- Hq. now apply or_truthy.
  - intros movieCount w0 w' enrichments Hbatch.
    unfold enrichMovies, bind at 1 in Hbatch.
    rewrite selectMoviesWithRatings_run in Hbatch.
    set (selected := up_to _ _) in Hbatch.
    unfold bind, initializeEnrichmentTable, ret in Hbatch.
    destruct (enrich_loop_run rt selected [] w0) as (w1 & Hloop & _ & _ & Ht).
    rewrite Hloop in Hbatch. injection Hbatch as <- <-.
    split; [exact Ht |].
    intros e He.
    destruct (succeeded_rows rt selected w0) as [_ T].
    rewrite Forall_forall in T. specialize (T e He). split.
    + intros q Hq. apply truthy_number. now rewrite <- Hq.
    + intros q Hq Z. now apply (stored_zero_from_text _ q).
Qed.

End FalsyAttributes.

(** C9, as stated, fails: the answer below is well formed and carries the
    three keys, the index being the string 0. This string is truthy and is
    kept by [getLLMEnrichments]; the REAL column of the enrichment table
    turns it into the number 0, which is the index of the row persisted for
    the first film. *)
Lemma persisted_index_zero :
  JSON_parse Fixture.quoting_runtime Fixture.quoted_index_text
  = Ok (JObj [("awardPotential", JStr "High");
              ("popularityQualityIndex", JStr "0");
              ("emotionalGenres", JStr "dark")]%string) /\
  exists (enrichments : list MovieEnrichment) (w' : World) (row : MovieEnrichment),
    enrichMovies Fixture.quoting_runtime (Num.Finite 75) Fixture.fresh
    = (Ok enrichments, w') /\
    getEnrichment 1 w' = (Ok (Some row), w') /\
    popularityQualityIndex row = JNum 0.
Proof.
  split; [reflexivity |].
  do 3 eexists. split; [vm_compute; reflexivity |].
  split; reflexivity.
Qed.

Lemma getLLMEnrichments_falsy_replaced_witness :
  exists out : LLMEnrichments,
    getLLMEnrichments Fixture.runtime
      (mkEnrichmentInput Fixture.first_film 4 2 None) Fixture.fresh
    = (Ok out,
       after_prompt Fixture.fresh
         (EnrichmentPrompt (mkEnrichmentInput Fixture.first_film 4 2 None))) /\
    llm_popularityQualityIndex out = JNum 50 /\
    llm_emotionalGenres out = JStr "emotional".
Proof.
  destruct (getLLMEnrichments_falsy_replaced Fixture.runtime
              (mkEnrichmentInput Fixture.first_film 4 2 None) Fixture.fresh
              (Some Fixture.enrichment_text)
              [("awardPotential", JStr "High");
               ("popularityQualityIndex", JNum 0);
               ("emotionalGenres", JStr EmptyString)]%string)
    as (out & Run & Index & _ & Tones & _).
  - reflexivity.
  - reflexivity.
  - exists out. split; [exact Run |]. split.
    + apply (Index 0); reflexivity.
    + apply Tones. reflexivity.
Defined.

(** ** Comparison of movies *)

Section Comparison.

Variable rt : Runtime.

Lemma filter_none {A : Type} (p : A -> bool) (l : list A) :
  (forall a, In a l -> p a = false) -> filter p l = [].
Proof.
  induction l as [| a l IH]; intro H; [reflexivity |].
  cbn. rewrite (H a) by now left. apply IH. intros b Hb. apply H. now right.
Qed.

Lemma filter_key_unique (k : Z) (es : list MovieEnrichment) :
  NoDup (map enrichment_movieId es) ->
  (List.length (filter (fun e => (k =? enrichment_movieId e)%Z) es) <= 1)%nat.
Proof.
  induction es as [| e es IH]; intro H; [cbn; lia |].
  inversion H as [| ? ? Hn Hr]; subst. cbn.
  destruct (Z.eqb_spec k (enrichment_movieId e)) as [-> | Ne]; [| auto].
  replace (filter _ es) with (@nil MovieEnrichment); [cbn; lia |].
  symmetry. apply filter_none. intros e' He'.
  destruct (Z.eqb_spec (enrichment_movieId e) (enrichment_movieId e')) as [E |];
    [| reflexivity].
  exfalso. apply Hn. rewrite E. now apply in_map.
Qed.

Lemma join_ids (ms : list Movie) (es : list MovieEnrichment) (k : Z) :
  In k (map (fun r => movieId (details r)) (join ms es)) -> In k (map movieId ms).
Proof.
  unfold join. rewrite in_map_iff. intros (r & <- & Hr).
  apply in_flat_map in Hr. destruct Hr as (m & Hm & Hr).
  apply in_map_iff in Hr. destruct Hr as (e & <- & _). cbn. now apply in_map.
Qed.

Lemma join_NoDup (ms : list Movie) (es : list MovieEnrichment) :
  NoDup (map movieId ms) -> NoDup (map enrichment_movieId es) ->
  NoDup (map (fun r => movieId (details r)) (join ms es)).
Proof.
  intros Hm He. induction ms as [| m ms IH]; [constructor |].
  inversion Hm as [| ? ? Hn Hr]; subst.
  change (join (m :: ms) es)
    with (map (mkEnrichedMovie m)
              (filter (fun e => (movieId m =? enrichment_movieId e)%Z) es)
          ++ join ms es).
  pose proof (filter_key_unique (movieId m) es He) as U.
  destruct (filter _ es) as [| e [| e' l]]; cbn in U |- *; try lia; auto.
  constructor; auto. intro Hin. apply Hn. now apply (join_ids ms es).
Qed.

Lemma NoDup_map_filter {A : Type} (key : A -> Z) (p : A -> bool) (l : list A) :
  NoDup (map key l) -> NoDup (map key (filter p l)).
Proof.
  induction l as [| a l IH]; intro H; [constructor |].
  inversion H as [| ? ? Hn Hr]; subst. cbn.
  destruct (p a); cbn; auto.
  constructor; auto. intro Hin. apply Hn.
  apply in_map_iff in Hin. destruct Hin as (b & E & Hb).
  apply filter_In in Hb. rewrite <- E. apply in_map. tauto.
Qed.

(** The primary key of the enrichment table is kept by every write. *)
Lemma upsert_NoDup (e : MovieEnrichment) (table : list MovieEnrichment) :
  NoDup (map enrichment_movieId table) ->
  NoDup (map enrichment_movieId (upsert e table)).
Proof.
  intro H. unfold upsert.
  apply (Permutation_NoDup
           (Permutation_sym
              (Permutation_map enrichment_movieId (insert_row_perm e _)))).
  cbn [map]. constructor; [| now apply NoDup_map_filter].
  intro Hk. apply in_map_iff in Hk. destruct Hk as (r & E & Hr).
  apply filter_In in Hr. destruct Hr as [_ Hr].
  apply negb_true_iff, Z.eqb_neq in Hr. congruence.
Qed.

(** C10: a list of identifiers of length at least 2 that repeats one of them
    is rejected with 'Some movies not found or not enriched', whatever the
    tables hold, movie identifiers being keys of both tables. *)
Theorem compareMovies_duplicate_ids (movieIds : list Z) (user : option Z) (w : World) :
  (2 <= List.length movieIds)%nat ->
  ~ NoDup movieIds ->
  NoDup (map movieId (movies (db w))) ->
  NoDup (map enrichment_movieId (movie_enrichments (db w))) ->
  compareMovies rt movieIds user w
  = (Throw (Error "Some movies not found or not enriched"), w).
Proof.
  intros Hlen Hdup Hm He. unfold compareMovies.
  destruct (Nat.ltb_spec (List.length movieIds) 2) as [Short |]; [lia |].
  unfold bind, getEnrichedMoviesWithDetails.
  set (joined := join (movies (db w)) (movie_enrichments (db w))).
  set (compared := filter _ joined).
  destruct (Nat.eqb_spec (List.length compared) (List.length movieIds)) as [E | Ne];
    [| reflexivity].
  exfalso. apply Hdup.
  apply NoDup_incl_NoDup with (l := map (fun r => movieId (details r)) compared).
  - apply NoDup_map_filter. now apply join_NoDup.
  - rewrite length_map. lia.
  - intros k Hk. apply in_map_iff in Hk. destruct Hk as (r & <- & Hr).
    apply filter_In in Hr. destruct Hr as [_ Hr].
    apply existsb_exists in Hr. destruct Hr as (k & Hk & Hr).
    apply Z.eqb_eq in Hr. congruence.
Qed.

End Comparison.

Lemma compareMovies_duplicate_ids_witness :
  compareMovies Fixture.runtime [1; 1]%Z None Fixture.enriched
  = (Throw (Error "Some movies not found or not enriched"), Fixture.enriched).
Proof.
  apply compareMovies_duplicate_ids.
  - cbn. lia.
  - intro H. inversion H as [| ? ? Hn _]. apply Hn. now left.
  - repeat constructor; cbn; intuition discriminate.
  - repeat constructor; cbn; intuition discriminate.
Defined.

(** ** Recommendations *)

Section Recommendations.

Variable rt : Runtime.

Lemma getRatingsByUserId_frame (user : Z) (w : World) :
  exists rated, getRatingsByUserId user w = (Ok rated, w).
Proof. eexists. reflexivity. Qed.


Lemma find_candidate_kept (candidateMovies : list EnrichedMovie) (rec : json)
    (found : option EnrichedMovie) :
  find_candidate candidateMovies rec = Ok found ->
  kept candidateMovies rec = match found with Some m => [m] | None => [] end.
Proof.
  unfold find_candidate, kept.
  destruct candidateMovies as [| c cs]; [intro H; injection H as <-; reflexivity |].
  destruct rec; cbn [JS.get entry_id]; intro H; try discriminate;
    injection H as <-; reflexivity.
Qed.

Lemma reconcile_spec (candidateMovies : list EnrichedMovie) (recs : list json) :
  forall acc out : list Recommendation,
    reconcile candidateMovies recs acc = Ok out ->
    exists new : list Recommendation,
      out = acc ++ new /\
      map movie new = flat_map (kept candidateMovies) recs.
Proof.
  induction recs as [| rec rest IH]; intros acc out H.
  - cbn in H. injection H as <-. exists []. now rewrite app_nil_r.
  - cbn [reconcile] in H.
    destruct (find_candidate candidateMovies rec) as [[m |] | e] eqn:F;
      try discriminate; apply find_candidate_kept in F; cbn [flat_map]; rewrite F.
    + destruct (recommend m rec) as [r | e] eqn:R; [| discriminate].
      destruct (IH _ _ H) as (new & -> & Hm).
      exists (r :: new). rewrite <- app_assoc. split; [reflexivity |].
      cbn. rewrite Hm. f_equal.
      unfold recommend in R.
      destruct (JS.get rec "score"); [| discriminate].
      destruct (JS.get rec "reasoning"); [| discriminate].
      now injection R as <-.
    + exact (IH _ _ H).
Qed.

Lemma kept_known (candidateMovies : list EnrichedMovie) (rec : json) (m : EnrichedMovie) :
  In m (kept candidateMovies rec) ->
  In m candidateMovies /\ known candidateMovies rec.
Proof.
  unfold kept.
  destruct (find _ candidateMovies) as [c |] eqn:F; [| intros []].
  intros [<- | []]. apply find_some in F. destruct F as [Hin Heq].
  split; [exact Hin |].
  unfold JS.num_eq in Heq.
  destruct (entry_id rec) as [[| | q | | |] |] eqn:E; try discriminate.
  exists c, q. repeat split; trivial.
  apply Qeq_bool_iff in Heq. now symmetry.
Qed.





End Recommendations.


(** ** Rolling return on investment *)

Section Strings.

Lemma trimStart_blank (s : string) : blank s = true -> JS.trimStart s = EmptyString.
Proof.
  unfold blank. induction s as [| c s IH]; [reflexivity |].
  cbn. destruct (JS.is_space c); [exact IH | discriminate].
Qed.

Lemma trimStart_solid (s : string) :
  blank s = false ->
  exists c rest, JS.trimStart s = String c rest /\ JS.is_space c = false.
Proof.
  unfold blank. induction s as [| c s IH]; [discriminate |].
  cbn. destruct (JS.is_space c) eqn:E; [exact IH |].
  intros _. now exists c, s.
Qed.

Lemma trimEnd_solid (c : ascii) (rest : string) :
  JS.is_space c = false -> JS.trimEnd (String c rest) <> EmptyString.
Proof.
  intro H. cbn. destruct (JS.trimEnd rest); [rewrite H |]; discriminate.
Qed.

(** The guard of [calculateCompanyROI] holds for the blank fields. *)
Lemma undeclared_blank (s : string) :
  ((s =? EmptyString) || (JS.trim s =? EmptyString))%string = blank s.
Proof.
  destruct (blank s) eqn:B.
  - unfold JS.trim. rewrite (trimStart_blank s B). apply orb_true_r.
  - destruct (trimStart_solid s B) as (c & rest & T & Hc).
    unfold JS.trim. rewrite T.
    apply orb_false_iff. split; apply String.eqb_neq.
    + intros ->. discriminate.
    + now apply trimEnd_solid.
Qed.

End Strings.

Section Sorting.

Context {A : Type} (le : A -> A -> bool).

Lemma insert_perm (x : A) (l : list A) : Permutation (JS.insert le x l) (x :: l).
Proof.
  induction l as [| y l IH]; [reflexivity |].
  cbn. destruct (le x y); [reflexivity |].
  rewrite IH. apply perm_swap.
Qed.

Lemma sort_perm (l : list A) : Permutation (JS.sort le l) l.
Proof.
  induction l as [| x l IH]; [reflexivity |].
  cbn. rewrite insert_perm. now constructor.
Qed.

Hypothesis le_total : forall a b, le a b = true \/ le b a = true.
Hypothesis le_trans : forall a b c, le a b = true -> le b c = true -> le a c = true.

Lemma insert_sorted (x : A) (l : list A) :
  StronglySorted (fun a b => le a b = true) l ->
  StronglySorted (fun a b => le a b = true) (JS.insert le x l).
Proof.
  induction 1 as [| y l Hs IH Hy]; cbn; [repeat constructor |].
  destruct (le x y) eqn:E.
  - constructor; [now constructor |].
    constructor; [exact E |].
    rewrite Forall_forall in *. intros z Hz. apply (le_trans _ y); auto.
  - constructor; [exact IH |].
    rewrite Forall_forall in *. intros z Hz.
    apply (Permutation_in _ (insert_perm x l)) in Hz.
    destruct Hz as [<- | Hz]; [| auto].
    destruct (le_total x y); congruence.
Qed.

Lemma sort_sorted (l : list A) :
  StronglySorted (fun a b => le a b = true) (JS.sort le l).
Proof.
  induction l as [| x l IH]; cbn; [constructor | now apply insert_sorted].
Qed.


End Sorting.


(** The comparison of the fixture is a total preorder. *)
Section FixtureOrder.

Lemma compare_strings_le (a b : string) :
  (Fixture.compare_strings a b <= 0)%Z <-> String.compare a b <> Gt.
Proof.
  unfold Fixture.compare_strings.
  destruct (String.compare a b); split; intro H; try lia; congruence.
Qed.

Lemma compare_strings_total (a b : string) :
  (Fixture.compare_strings a b <= 0 \/ Fixture.compare_strings b a <= 0)%Z.
Proof.
  rewrite !compare_strings_le, (String.compare_antisym b a).
  destruct (String.compare a b); cbn; [left | left | right]; congruence.
Qed.

Lemma compare_not_gt_trans (a : string) :
  forall b c : string,
    String.compare a b <> Gt -> String.compare b c <> Gt ->
    String.compare a c <> Gt.
Proof.
  induction a as [| x a IH]; intros [| y b] [| z c]; cbn; try congruence.
  unfold Ascii.compare.
  destruct (N.compare_spec (N_of_ascii x) (N_of_ascii y)) as [Exy | Lxy | Gxy];
    destruct (N.compare_spec (N_of_ascii y) (N_of_ascii z)) as [Eyz | Lyz | Gyz];
    destruct (N.compare_spec (N_of_ascii x) (N_of_ascii z)) as [Exz | Lxz | Gxz];
    try congruence; try lia.
  apply IH.
Qed.

Lemma compare_strings_trans (a b c : string) :
  (Fixture.compare_strings a b <= 0 -> Fixture.compare_strings b c <= 0 ->
   Fixture.compare_strings a c <= 0)%Z.
Proof.
  rewrite !compare_strings_le. apply compare_not_gt_trans.
Qed.

End FixtureOrder.

Section RollingROI.

Variable rt : Runtime.

Lemma map_names_spec (cs : list json) :
  map_names cs =
  if existsb is_null cs then Throw TypeError
  else Ok (map (fun c => JS.or (name_of c) (JStr EmptyString)) cs).
Proof.
  induction cs as [| c cs IH]; [reflexivity |].
  cbn [map_names existsb map]. rewrite IH.
  destruct c; cbn; try reflexivity; now destruct (existsb is_null cs).
Qed.

Lemma named_filter (c : json) :
  filter (fun n => negb (JS.strict_eq n (JStr EmptyString))) [JS.or (name_of c) (JStr EmptyString)]
  = named c.
Proof.
  unfold named. destruct (name_of c) as [j |]; [| reflexivity].
  destruct j as [| b | q | s | items | fields]; cbn; try reflexivity.
  - now destruct b.
  - now destruct (Qeq_bool q 0).
  - destruct (String.eqb_spec s EmptyString); cbn; [reflexivity |].
    destruct (String.eqb_spec s EmptyString); [contradiction | reflexivity].
Qed.

Lemma company_names_spec (cs : list json) :
  company_names (JArr cs) =
  if existsb is_null cs then Throw TypeError else Ok (flat_map named cs).
Proof.
  unfold company_names. rewrite map_names_spec.
  destruct (existsb is_null cs); [reflexivity |]. f_equal.
  induction cs as [| c cs IH]; [reflexivity |].
  cbn [map flat_map]. rewrite <- IH, <- named_filter.
  cbn. now destruct (negb _).
Qed.

(** The value returned, read off the text of the function. *)
Lemma calculateCompanyROI_run (target : Movie) (w : World) :
  calculateCompanyROI rt target w =
  (Ok match company_list rt target with
      | Some (primaryCompany :: _) =>
          average_roi (previous_movies rt target primaryCompany (movies (db w)))
      | _ => None
      end, w).
Proof.
  unfold calculateCompanyROI, company_list. rewrite undeclared_blank.
  destruct (blank (productionCompanies target)); [reflexivity |].
  unfold bind, try_catch, lift, ret, getMovies.
  destruct (JSON_parse rt (productionCompanies target)) as [parsed | e];
    [| reflexivity].
  destruct parsed as [| b | q | s | cs | fields]; try reflexivity.
  rewrite company_names_spec.
  destruct (existsb is_null cs); [reflexivity |].
  destruct (flat_map named cs); reflexivity.
Qed.




Lemma has_financials_profitable (m : Movie) : has_financials m = profitable m.
Proof.
  unfold has_financials, profitable.
  destruct (Qlt_le_dec 0 (budget m)) as [B | B].
  - apply ltb_true in B. rewrite B.
    destruct (Qlt_le_dec 0 (revenue m)) as [R | R].
    + now apply ltb_true in R.
    + now apply ltb_false in R.
  - apply ltb_false in B. now rewrite B.
Qed.


Lemma roi_fold (l : list Movie) (t : Q) (c : nat) :
  fst (fold_left roi_step l (t, c))
  == t + fold_right Qplus 0 (map roi_of (filter has_financials l)) /\
  snd (fold_left roi_step l (t, c))
  = (c + List.length (filter has_financials l))%nat.
Proof.
  revert t c. induction l as [| m l IH]; intros t c.
  - cbn. split; [ring | lia].
  - cbn [fold_left filter]. unfold roi_step at 2 4.
    destruct (has_financials m); destruct (IH (t + roi_of m) (S c)) as [E1 E2];
      destruct (IH t c) as [F1 F2]; cbn [map fold_right List.length].
    + rewrite E1, E2. split; [ring | lia].
    + now split.
Qed.

Lemma sumQ_fold_right (xs : list Q) : sumQ xs == fold_right Qplus 0 xs.
Proof.
  unfold sumQ.
  assert (forall a, fold_left Qplus xs a == a + fold_right Qplus 0 xs) as G.
  { induction xs as [| x xs IH]; intro a; cbn [fold_left fold_right]; [ring |].
    rewrite IH. ring. }
  rewrite G. ring.
Qed.

Lemma average_roi_spec (window : list Movie) :
  match filter profitable window with
  | [] => average_roi window = None
  | valid =>
      exists q : Q, average_roi window = Some q /\ q == mean (map percent_return valid)
  end.
Proof.
  rewrite <- (filter_ext _ _ has_financials_profitable).
  change percent_return with roi_of.
  unfold average_roi. destruct window as [| m window]; [reflexivity |].
  pose proof (roi_fold (m :: window) 0 0) as [Ht Hc].
  destruct (fold_left roi_step (m :: window) (0, 0%nat)) as [t c].
  cbn [fst snd] in Ht, Hc. rewrite Nat.add_0_l in Hc.
  destruct (filter has_financials (m :: window)) as [| v valid].
  - cbn in Hc. now rewrite Hc.
  - cbn [List.length] in Hc. rewrite Hc. cbn [Nat.ltb Nat.leb].
    eexists. split; [reflexivity |].
    unfold mean. rewrite sumQ_fold_right, Ht. cbn [List.length]. rewrite length_map.
    apply Qdiv_comp; [ring | reflexivity].
Qed.






End RollingROI.



(** The window leaves out the oldest of eleven prior releases. *)
Example rolling_window_drops_oldest :
  exists q : Q,
    fst (calculateCompanyROI Fixture.runtime Fixture.blockbuster
           (mkWorld Fixture.back_catalog []))
    = Ok (Some q) /\ q == 50.
Proof.
  eexists. split; [vm_compute; reflexivity | reflexivity].
Qed.

(** * Further properties *)

(** ** Components of the production effectiveness score *)

Section ScoreComponents.

Variable rt : Runtime.

Lemma roi_of_below (m : Movie) (c : Q) :
  0 < budget m -> revenue m - budget m <= c * budget m -> roi_of m <= c * 100.
Proof.
  intros B H. unfold roi_of.
  assert ((revenue m - budget m) / budget m <= c) as K
    by (apply Qle_shift_div_r; assumption).
  lra.
Qed.

Lemma roi_of_above (m : Movie) (c : Q) :
  0 < budget m -> c * budget m <= revenue m - budget m -> c * 100 <= roi_of m.
Proof.
  intros B H. unfold roi_of.
  assert (c <= (revenue m - budget m) / budget m) as K
    by (apply Qle_shift_div_l; assumption).
  lra.
Qed.

Lemma roiScore_financials (m : Movie) :
  0 < budget m -> 0 < revenue m ->
  roiScore m = Qmin 100 (Qmax 0 ((roi_of m + 50) / 2)).
Proof.
  intros B R. unfold roiScore.
  apply ltb_true in B, R. now rewrite B, R.
Qed.

(** X1: the return component is 0 without a positive budget and a positive
    revenue and when the revenue is at most half the budget, 100 when the
    revenue is at least two and a half times the budget, and (roi + 50) / 2
    in between. *)
Theorem roiScore_bands (m : Movie) :
  (budget m <= 0 \/ revenue m <= 0 -> roiScore m == 0) /\
  (0 < budget m -> 0 < revenue m ->
   revenue m * 2 <= budget m -> roiScore m == 0) /\
  (0 < budget m -> 0 < revenue m ->
   budget m * (5 # 2) <= revenue m -> roiScore m == 100) /\
  (0 < budget m -> 0 < revenue m ->
   budget m <= revenue m * 2 -> revenue m <= budget m * (5 # 2) ->
   roiScore m == (roi_of m + 50) / 2).
Proof.
  split; [| split; [| split]].
  - intro H. unfold roiScore.
    destruct (Num.ltb 0 (budget m)) eqn:B; [| reflexivity].
    destruct (Num.ltb 0 (revenue m)) eqn:R; [| reflexivity].
    apply ltb_true in B, R. lra.
  - intros B R H. rewrite (roiScore_financials m B R).
    assert (roi_of m <= - (1 # 2) * 100) as K by (apply roi_of_below; lra).
    rewrite Q.max_l by (qdiv; lra). apply Q.min_r. lra.
  - intros B R H. rewrite (roiScore_financials m B R).
    assert ((3 # 2) * 100 <= roi_of m) as K by (apply roi_of_above; lra).
    rewrite Q.max_r by (qdiv; lra). apply Q.min_l. qdiv. lra.
  - intros B R L U. rewrite (roiScore_financials m B R).
    assert (- (1 # 2) * 100 <= roi_of m) as K1 by (apply roi_of_above; lra).
    assert (roi_of m <= (3 # 2) * 100) as K2 by (apply roi_of_below; lra).
    rewrite Q.max_r by (qdiv; lra). apply Q.min_r. qdiv. lra.
Qed.

(** X2: without a positive revenue the return and the revenue components
    are both 0: the score is then the same for any two such movies, whatever
    their budgets, and does not exceed 40 for an average rating in [0, 5]. *)
Theorem calculateProductionEffectiveness_no_revenue (m m' : Movie) (avg : Q) :
  revenue m <= 0 -> revenue m' <= 0 ->
  roiScore m == 0 /\ revenueScore rt m == 0 /\
  calculateProductionEffectiveness rt m avg
  == calculateProductionEffectiveness rt m' avg /\
  (0 <= avg -> avg <= 5 -> calculateProductionEffectiveness rt m avg <= 40).
Proof.
  assert (forall x : Movie,
             revenue x <= 0 ->
             roiScore x == 0 /\ revenueScore rt x == 0 /\
             weighted_sum rt x avg == avg * 8) as Flat.
  { intros x R.
    assert (Num.ltb 0 (revenue x) = false) as F by (apply ltb_false; exact R).
    assert (roiScore x == 0) as S1
      by (unfold roiScore; rewrite F, andb_false_r; reflexivity).
    assert (revenueScore rt x == 0) as S2
      by (unfold revenueScore; rewrite F; reflexivity).
    repeat split; trivial.
    unfold weighted_sum, ratingScore. rewrite S1, S2. qdiv. ring. }
  intros R R'.
  destruct (Flat m R) as (S1 & S2 & W). destruct (Flat m' R') as (_ & _ & W').
  split; [exact S1 |]. split; [exact S2 |].
  unfold calculateProductionEffectiveness. split.
  - apply toFixed2_compat. now rewrite W, W'.
  - intros A1 A2. rewrite (toFixed2_compat _ _ W).
    rewrite toFixed2_small by lra.
    assert (40 == inject_Z 4000 / 100) as E by reflexivity.
    rewrite E. apply nearest_below. rewrite <- E. lra.
Qed.

End ScoreComponents.

Lemma calculateProductionEffectiveness_no_revenue_witness :
  calculateProductionEffectiveness Fixture.runtime Fixture.unrated 5
  == calculateProductionEffectiveness Fixture.runtime
       (Fixture.release 30 "1980-01-01" 0) 5 /\
  calculateProductionEffectiveness Fixture.runtime Fixture.unrated 5 <= 40.
Proof.
  destruct (calculateProductionEffectiveness_no_revenue
              Fixture.runtime Fixture.unrated (Fixture.release 30 "1980-01-01" 0) 5)
    as (_ & _ & E & U).
  - discriminate.
  - discriminate.
  - split; [exact E | apply U; discriminate].
Defined.

Section RevenueMonotone.

Variable rt : Runtime.

Lemma roiScore_revenue_mono (m1 m2 : Movie) :
  budget m1 = budget m2 -> revenue m1 <= revenue m2 ->
  roiScore m1 <= roiScore m2.
Proof.
  intros Eb Hr.
  destruct (Qlt_le_dec 0 (budget m1)) as [B | B].
  - destruct (Qlt_le_dec 0 (revenue m1)) as [R | R].
    + rewrite (roiScore_financials m1 B R).
      rewrite (roiScore_financials m2) by (rewrite <- ?Eb; lra).
      apply Q.min_le_compat_l, Q.max_le_compat_l.
      assert (roi_of m1 <= roi_of m2) as K.
      { unfold roi_of. rewrite <- Eb. unfold Qdiv.
        pose proof (Qinv_lt_0_compat _ B) as I.
        assert ((revenue m1 - budget m1) * / budget m1
                <= (revenue m2 - budget m1) * / budget m1) as K
          by (apply Qmult_le_compat_r; lra).
        lra. }
      qdiv. lra.
    + assert (roiScore m1 == 0) as ->
        by (unfold roiScore; apply ltb_false in R; rewrite R, andb_false_r;
            reflexivity).
      apply roiScore_range.
  - assert (roiScore m1 == 0) as ->
      by (unfold roiScore; apply ltb_false in B; rewrite B; reflexivity).
    apply roiScore_range.
Qed.

Lemma revenueScore_revenue_mono (m1 m2 : Movie) :
  (forall x y, 1 <= x -> x <= y -> log10 rt x <= log10 rt y) ->
  0 <= log10 rt 1 ->
  Num.isInteger (revenue m1) -> Num.isInteger (revenue m2) ->
  revenue m1 <= revenue m2 ->
  revenueScore rt m1 <= revenueScore rt m2.
Proof.
  intros Mono Zero I1 I2 Hr.
  assert (forall x, 1 <= x -> 0 <= log10 rt x) as Pos
    by (intros x Hx; pose proof (Mono 1 x); lra).
  destruct (Qlt_le_dec 0 (revenue m1)) as [R | R].
  - pose proof (positive_integer _ I1 R) as One.
    unfold revenueScore.
    assert (Num.ltb 0 (revenue m1) = true) as -> by now apply ltb_true.
    assert (Num.ltb 0 (revenue m2) = true) as -> by (apply ltb_true; lra).
    apply Q.min_le_compat_l. pose proof (Mono _ _ One Hr). qdiv. lra.
  - assert (revenueScore rt m1 == 0) as ->
      by (unfold revenueScore; apply ltb_false in R; rewrite R; reflexivity).
    now apply revenueScore_nonneg.
Qed.

(** X3: with the budget and the average rating fixed, a larger integer
    revenue never lowers the score. The logarithm is required to be
    non-negative at 1 and non-decreasing from 1 on. *)
Theorem calculateProductionEffectiveness_revenue_monotone (m1 m2 : Movie) (avg : Q) :
  (forall x y, 1 <= x -> x <= y -> log10 rt x <= log10 rt y) ->
  0 <= log10 rt 1 ->
  budget m1 = budget m2 ->
  Num.isInteger (revenue m1) -> Num.isInteger (revenue m2) ->
  revenue m1 <= revenue m2 ->
  calculateProductionEffectiveness rt m1 avg
  <= calculateProductionEffectiveness rt m2 avg.
Proof.
  intros Mono Zero Eb I1 I2 Hr.
  unfold calculateProductionEffectiveness. apply toFixed2_mono.
  unfold weighted_sum.
  pose proof (roiScore_revenue_mono m1 m2 Eb Hr).
  pose proof (revenueScore_revenue_mono m1 m2 Mono Zero I1 I2 Hr).
  lra.
Qed.

End RevenueMonotone.

Lemma count_digits_mono (fuel : nat) :
  forall n n' : Z, (n <= n')%Z ->
  (Fixture.count_digits fuel n <= Fixture.count_digits fuel n')%Z.
Proof.
  induction fuel as [| fuel IH]; intros n n' H; cbn [Fixture.count_digits]; [lia |].
  destruct (Z.ltb_spec n 10); destruct (Z.ltb_spec n' 10); try lia.
  - pose proof (count_digits_nonneg fuel (n' / 10)). lia.
  - assert (n / 10 <= n' / 10)%Z by (apply Z.div_le_mono; lia).
    specialize (IH _ _ H2). lia.
Qed.

Lemma digits_log10_mono (x y : Q) :
  x <= y -> Fixture.digits_log10 x <= Fixture.digits_log10 y.
Proof.
  intro H. unfold Fixture.digits_log10. rewrite <- Zle_Qle.
  apply count_digits_mono. now apply Qfloor_resp_le.
Qed.

Lemma calculateProductionEffectiveness_revenue_monotone_witness :
  calculateProductionEffectiveness Fixture.runtime Fixture.first_film 4
  <= calculateProductionEffectiveness Fixture.runtime Fixture.blockbuster 4.
Proof.
  apply calculateProductionEffectiveness_revenue_monotone.
  - intros x y _. apply digits_log10_mono.
  - apply digits_log10_nonneg.
  - reflexivity.
  - exists 150%Z. reflexivity.
  - exists 1000000000%Z. reflexivity.
  - discriminate.
Defined.

(** ** Further properties of the rolling return on investment *)

Section RollingBounds.

Variable rt : Runtime.

Lemma roi_of_above_minus_100 (m : Movie) :
  has_financials m = true -> -100 < roi_of m.
Proof.
  unfold has_financials. rewrite andb_true_iff, !ltb_true. intros [B R].
  unfold roi_of.
  assert (- (1) < (revenue m - budget m) / budget m) as K
    by (apply Qlt_shift_div_l; [exact B | lra]).
  lra.
Qed.

Lemma sum_above (a : Q) (xs : list Q) :
  Forall (fun x => a < x) xs ->
  a * Num.of_nat (List.length xs) <= fold_right Qplus 0 xs /\
  (xs <> [] -> a * Num.of_nat (List.length xs) < fold_right Qplus 0 xs).
Proof.
  unfold Num.of_nat. induction 1 as [| x xs Hx Hxs [IH _]].
  - cbn [List.length fold_right]. change (inject_Z (Z.of_nat 0)) with 0.
    split; [lra | congruence].
  - cbn [List.length fold_right].
    rewrite Nat2Z.inj_succ, <- Z.add_1_r, inject_Z_plus.
    change (inject_Z 1) with 1. split; [| intros _]; lra.
Qed.

Lemma mean_above (a : Q) (xs : list Q) :
  xs <> [] -> Forall (fun x => a < x) xs -> a < mean xs.
Proof.
  intros Hne Hall. unfold mean. rewrite sumQ_fold_right.
  destruct (sum_above a xs Hall) as [_ S]. specialize (S Hne).
  apply Qlt_shift_div_l; [| exact S].
  unfold Num.of_nat. change 0 with (inject_Z 0). rewrite <- Zlt_Qlt.
  destruct xs; [congruence | cbn [List.length]; lia].
Qed.

(** X4: a rolling return on investment that is not null is never below
    -100 per cent: no movie of the window loses more than its budget. *)
Theorem calculateCompanyROI_not_below_minus_100 (target : Movie) (w : World) (q : Q) :
  fst (calculateCompanyROI rt target w) = Ok (Some q) -> -100 <= q.
Proof.
  rewrite calculateCompanyROI_run. cbn [fst].
  destruct (company_list rt target) as [[| primaryCompany others] |];
    try discriminate.
  set (window := previous_movies rt target primaryCompany (movies (db w))).
  pose proof (average_roi_spec window) as Avg.
  destruct (filter profitable window) as [| v valid] eqn:F.
  - rewrite Avg. discriminate.
  - destruct Avg as (q' & -> & Hq). intro H. injection H as <-.
    rewrite Hq. apply Qlt_le_weak, mean_above; [discriminate |].
    apply Forall_forall. intros x Hx.
    apply in_map_iff in Hx. destruct Hx as (m & <- & Hm).
    apply roi_of_above_minus_100.
    rewrite <- F in Hm. apply filter_In in Hm.
    rewrite has_financials_profitable. tauto.
Qed.

Lemma filter_comm {A : Type} (p q : A -> bool) (l : list A) :
  filter p (filter q l) = filter q (filter p l).
Proof.
  induction l as [| a l IH]; [reflexivity |].
  cbn. destruct (q a) eqn:Q; destruct (p a) eqn:P; cbn;
    rewrite ?Q, ?P, IH; reflexivity.
Qed.

(** X5: the movies that are not released strictly before the target (the
    target itself among them) have no influence on its rolling return: two
    catalogs that hold the same earlier releases give the same result. *)
Theorem calculateCompanyROI_earlier_releases_only (target : Movie) (w1 w2 : World) :
  filter (released_before target) (movies (db w1))
  = filter (released_before target) (movies (db w2)) ->
  fst (calculateCompanyROI rt target w1) = fst (calculateCompanyROI rt target w2).
Proof.
  intro H. rewrite !calculateCompanyROI_run. cbn [fst].
  destruct (company_list rt target) as [[| primaryCompany others] |]; trivial.
  unfold previous_movies. now rewrite !(filter_comm (released_before target)), H.
Qed.

End RollingBounds.

Lemma calculateCompanyROI_not_below_minus_100_witness :
  exists q : Q,
    fst (calculateCompanyROI Fixture.runtime Fixture.blockbuster Fixture.fresh)
    = Ok (Some q) /\ -100 <= q.
Proof.
  eexists. split; [vm_compute; reflexivity |].
  apply (calculateCompanyROI_not_below_minus_100 Fixture.runtime
           Fixture.blockbuster Fixture.fresh).
  vm_compute. reflexivity.
Defined.

Lemma calculateCompanyROI_earlier_releases_only_witness :
  fst (calculateCompanyROI Fixture.runtime Fixture.blockbuster Fixture.fresh)
  = fst (calculateCompanyROI Fixture.runtime Fixture.blockbuster
           (mkWorld (mkDatabase [Fixture.first_film] [] []) [])).
Proof.
  apply calculateCompanyROI_earlier_releases_only. reflexivity.
Defined.

(** ** Further properties of the batch *)

Section BatchAccounting.

Variable rt : Runtime.

(** The two ways in which an item can fail, and what it does otherwise. *)
Lemma enrich_item_inv (m : Movie) (w : World) :
  exists input : EnrichmentInput,
    input_movie input = m /\
    let prompt := EnrichmentPrompt input in
    match completion rt (List.length (sent w)) prompt with
    | Throw x => enrich_item rt m w = (Throw x, after_prompt w prompt)
    | Ok _ =>
        exists e : MovieEnrichment,
          enrichment_movieId e = movieId m /\
          enrich_item rt m w =
          if storage_fault rt (List.length (sent w ++ [prompt])) e
          then (Throw StorageError, after_prompt w prompt)
          else (Ok e,
                mkWorld (mkDatabase (movies (db w)) (ratings (db w))
                           (upsert (stored rt e) (movie_enrichments (db w))))
                        (sent w ++ [prompt]))
    end.
Proof.
  unfold enrich_item, enrichSingleMovie, bind, getAverageRatingForMovie.
  cbn [count].
  destruct (calculateCompanyROI_frame rt m w) as [roi ->].
  match goal with
  | |- context [getLLMEnrichments rt ?i w] => set (input := i)
  end.
  exists input. split; [reflexivity |]. cbn zeta.
  rewrite getLLMEnrichments_run.
  destruct (completion rt _ _) as [response | x]; [| reflexivity].
  unfold ret, saveEnrichment. cbn [db sent after_prompt].
  match goal with
  | |- context [storage_fault rt _ ?r] => exists r
  end.
  split; [reflexivity |]. now destruct (storage_fault rt _ _).
Qed.

Lemma enrich_item_sent (m : Movie) (w : World) :
  exists input : EnrichmentInput,
    input_movie input = m /\
    sent (snd (enrich_item rt m w)) = sent w ++ [EnrichmentPrompt input].
Proof.
  destruct (enrich_item_inv m w) as (input & Hm & H). cbn zeta in H.
  exists input. split; [exact Hm |].
  destruct (completion rt _ _).
  - destruct H as (e & _ & ->). now destruct (storage_fault rt _ e).
  - now rewrite H.
Qed.

Lemma enrich_loop_sent (selected : list Movie) :
  forall (acc : list MovieEnrichment) (w : World),
  exists inputs : list EnrichmentInput,
    map input_movie inputs = selected /\
    sent (snd (enrich_loop rt selected acc w))
    = sent w ++ map EnrichmentPrompt inputs.
Proof.
  induction selected as [| m rest IH]; intros acc w.
  - exists []. cbn. now rewrite app_nil_r.
  - cbn [enrich_loop]. unfold bind at 1, try_catch, bind at 1.
    destruct (enrich_item_sent m w) as (input & Hm & Hs).
    destruct (enrich_item rt m w) as [[e | x] w1]; unfold ret; cbn [snd] in Hs;
      match goal with
      | |- context [enrich_loop rt rest ?a w1] =>
          destruct (IH a w1) as (inputs & Hi & ->)
      end;
      exists (input :: inputs); cbn [map];
      rewrite Hs, Hm, Hi, <- app_assoc; auto.
Qed.

Lemma written_NoDup (es table : list MovieEnrichment) :
  NoDup (map enrichment_movieId table) ->
  NoDup (map enrichment_movieId (written rt es table)).
Proof.
  revert table. induction es as [| e es IH]; intros table H; [exact H |].
  cbn [written fold_left]. apply IH. now apply upsert_NoDup.
Qed.

Lemma enrichMovies_run (movieCount : Num.number) (w : World) :
  let selected :=
    up_to (quota movieCount) (filter (has_ratings (db w)) (movies (db w))) in
  exists w' : World,
    enrichMovies rt movieCount w
    = (Ok (succeeded (item_outcomes rt selected w)), w') /\
    movies (db w') = movies (db w) /\
    ratings (db w') = ratings (db w) /\
    movie_enrichments (db w')
    = written rt (succeeded (item_outcomes rt selected w)) (movie_enrichments (db w)) /\
    exists inputs : list EnrichmentInput,
      map input_movie inputs = selected /\
      sent w' = sent w ++ map EnrichmentPrompt inputs.
Proof.
  intro selected.
  destruct (enrich_loop_run rt selected [] w) as (w' & Hrun & Hm & Hr & Ht).
  destruct (enrich_loop_sent selected [] w) as (inputs & Hi & Hs).
  rewrite Hrun in Hs. cbn [snd] in Hs.
  exists w'. split; [| repeat split; trivial; now exists inputs].
  unfold enrichMovies, bind at 1. rewrite selectMoviesWithRatings_run.
  unfold bind, initializeEnrichmentTable, ret. exact Hrun.
Qed.

(** X6: a batch that returns has left the catalog and the ratings as they
    were and returns at most one record for each selected movie; it has
    sent enrichment requests only, each for a selected movie, at least one
    for each record returned and no more than there are selected movies. *)
Theorem enrichMovies_accounting (movieCount : Num.number) (w w' : World)
    (enrichments : list MovieEnrichment) :
  enrichMovies rt movieCount w = (Ok enrichments, w') ->
  let selected :=
    up_to (quota movieCount) (filter (has_ratings (db w)) (movies (db w))) in
  movies (db w') = movies (db w) /\
  ratings (db w') = ratings (db w) /\
  (List.length enrichments <= List.length selected)%nat /\
  exists inputs : list EnrichmentInput,
    sent w' = sent w ++ map EnrichmentPrompt inputs /\
    (List.length enrichments <= List.length inputs)%nat /\
    (List.length inputs <= List.length selected)%nat /\
    (forall input, In input inputs -> In (input_movie input) selected).
Proof.
  intros Run selected.
  destruct (enrichMovies_run movieCount w)
    as (w1 & Run1 & Hm & Hr & _ & inputs & Hi & Hs).
  fold selected in Run1, Hi. rewrite Run1 in Run. injection Run as <- <-.
  pose proof (succeeded_failures (item_outcomes rt selected w)) as L.
  pose proof (f_equal (@List.length Movie) (item_outcomes_movies rt selected w)) as E.
  rewrite length_map in E.
  pose proof (f_equal (@List.length Movie) Hi) as Ei. rewrite length_map in Ei.
  split; [exact Hm |]. split; [exact Hr |]. split; [lia |].
  exists inputs. split; [exact Hs |]. split; [lia |]. split; [lia |].
  intros input Hin. rewrite <- Hi. now apply in_map.
Qed.

(** X7: every record returned by a batch is the record of a movie of the
    catalog that has at least one rating. *)
Theorem enrichMovies_rated_only (movieCount : Num.number) (w w' : World)
    (enrichments : list MovieEnrichment) (e : MovieEnrichment) :
  enrichMovies rt movieCount w = (Ok enrichments, w') ->
  In e enrichments ->
  exists m : Movie,
    In m (movies (db w)) /\ has_ratings (db w) m = true /\
    enrichment_movieId e = movieId m.
Proof.
  intros Run He.
  destruct (enrichMovies_run movieCount w) as (w1 & Run1 & _). cbn zeta in Run1.
  rewrite Run1 in Run. injection Run as <- <-.
  set (selected := up_to _ _) in *.
  destruct (succeeded_rows rt selected w) as [Ids _].
  assert (In (enrichment_movieId e)
             (map movieId (succeeded_movies (item_outcomes rt selected w)))) as K
    by (rewrite <- Ids; now apply in_map).
  apply in_map_iff in K. destruct K as (m & Em & Hm).
  apply succeeded_movies_incl in Hm. rewrite item_outcomes_movies in Hm.
  apply in_up_to, filter_In in Hm.
  exists m. intuition.
Qed.

(** X8: a batch keeps the primary key of the enrichment table: when no two
    rows carry the same movie identifier before, none do afterwards. *)
Theorem enrichMovies_keeps_primary_key (movieCount : Num.number) (w w' : World)
    (enrichments : list MovieEnrichment) :
  NoDup (map enrichment_movieId (movie_enrichments (db w))) ->
  enrichMovies rt movieCount w = (Ok enrichments, w') ->
  NoDup (map enrichment_movieId (movie_enrichments (db w'))).
Proof.
  intros Key Run.
  destruct (enrichMovies_run movieCount w) as (w1 & Run1 & _ & _ & Ht & _).
  cbn zeta in Run1, Ht.
  rewrite Run1 in Run. injection Run as _ <-.
  rewrite Ht. now apply written_NoDup.
Qed.

(** X9: an item is all or nothing. An item that fails leaves the database
    as it was; an item that succeeds has sent one request, for its movie,
    and has written one row, the one that the table keeps of its record,
    under the identifier of its movie; the catalog and the ratings are left
    as they were. *)
Theorem enrich_item_atomic (m : Movie) (w w' : World) :
  (forall x : exn, enrich_item rt m w = (Throw x, w') -> db w' = db w) /\
  (forall e : MovieEnrichment,
      enrich_item rt m w = (Ok e, w') ->
      enrichment_movieId e = movieId m /\
      movies (db w') = movies (db w) /\
      ratings (db w') = ratings (db w) /\
      movie_enrichments (db w') = upsert (stored rt e) (movie_enrichments (db w)) /\
      exists input : EnrichmentInput,
        input_movie input = m /\
        sent w' = sent w ++ [EnrichmentPrompt input]).
Proof.
  destruct (enrich_item_inv m w) as (input & Hm & H). cbn zeta in H.
  split.
  - intros x Run. rewrite Run in H.
    destruct (completion rt _ _) as [response | y].
    + destruct H as (e & _ & H).
      destruct (storage_fault rt _ e); [| discriminate].
      now injection H as _ ->.
    + now injection H as _ ->.
  - intros e Run. rewrite Run in H.
    destruct (completion rt _ _) as [response | y]; [| discriminate].
    destruct H as (e' & He & H).
    destruct (storage_fault rt _ e'); [discriminate |].
    injection H as -> ->. cbn. repeat split; trivial.
    exists input. now split.
Qed.

End BatchAccounting.

Lemma enrichMovies_rated_only_witness :
  exists m : Movie,
    In m (movies (db Fixture.fresh)) /\ has_ratings (db Fixture.fresh) m = true /\
    movieId m = 1%Z.
Proof.
  destruct (enrichMovies Fixture.runtime (Num.Finite 75) Fixture.fresh)
    as [[enrichments | x] w'] eqn:Run; [| vm_compute in Run; discriminate].
  assert (exists e, In e enrichments /\ enrichment_movieId e = 1%Z) as (e & He & Id).
  { vm_compute in Run. injection Run as <- _. eexists. split; [now left | reflexivity]. }
  destruct (enrichMovies_rated_only Fixture.runtime (Num.Finite 75) Fixture.fresh w'
              enrichments e Run He) as (m & Hin & Hr & Hid).
  exists m. repeat split; trivial. congruence.
Defined.

Lemma enrichMovies_keeps_primary_key_witness :
  exists (enrichments : list MovieEnrichment) (w' : World),
    enrichMovies Fixture.runtime (Num.Finite 75) Fixture.enriched
    = (Ok enrichments, w') /\
    NoDup (map enrichment_movieId (movie_enrichments (db w'))).
Proof.
  destruct (enrichMovies Fixture.runtime (Num.Finite 75) Fixture.enriched)
    as [[enrichments | x] w'] eqn:Run; [| vm_compute in Run; discriminate].
  exists enrichments, w'. split; [reflexivity |].
  apply (enrichMovies_keeps_primary_key Fixture.runtime (Num.Finite 75)
           Fixture.enriched w'
           enrichments); [| exact Run].
  repeat constructor; cbn; intuition discriminate.
Defined.

Lemma enrichMovies_accounting_witness :
  exists (enrichments : list MovieEnrichment) (w' : World),
    enrichMovies Fixture.runtime (Num.Finite 75) Fixture.fresh
    = (Ok enrichments, w') /\
    ratings (db w') = ratings (db Fixture.fresh) /\
    (List.length enrichments <= 2)%nat.
Proof.
  destruct (enrichMovies Fixture.runtime (Num.Finite 75) Fixture.fresh)
    as [[enrichments | x] w'] eqn:Run; [| vm_compute in Run; discriminate].
  exists enrichments, w'. split; [reflexivity |].
  destruct (enrichMovies_accounting Fixture.runtime (Num.Finite 75)
              Fixture.fresh w' enrichments Run) as (_ & Hr & Len & _).
  split; [exact Hr | exact Len].
Defined.

(** ** The enrichment table and the other queries *)

Section Store.

Variable rt : Runtime.

Lemma find_insert_row_same (e : MovieEnrichment) (table : list MovieEnrichment) :
  (forall r, In r table -> enrichment_movieId r <> enrichment_movieId e) ->
  find (fun r => (enrichment_movieId r =? enrichment_movieId e)%Z) (insert_row e table)
  = Some e.
Proof.
  induction table as [| r table IH]; intro H; cbn [insert_row].
  - cbn. now rewrite Z.eqb_refl.
  - destruct (enrichment_movieId e <? enrichment_movieId r)%Z; cbn [find].
    + now rewrite Z.eqb_refl.
    + destruct (Z.eqb_spec (enrichment_movieId r) (enrichment_movieId e)) as [E | N].
      * exfalso. apply (H r); [now left | exact E].
      * apply IH. intros r' Hr'. apply H. now right.
Qed.

Lemma find_insert_row_other (id : Z) (e : MovieEnrichment)
    (table : list MovieEnrichment) :
  id <> enrichment_movieId e ->
  find (fun r => (enrichment_movieId r =? id)%Z) (insert_row e table)
  = find (fun r => (enrichment_movieId r =? id)%Z) table.
Proof.
  intro N. induction table as [| r table IH]; cbn [insert_row].
  - cbn. destruct (Z.eqb_spec (enrichment_movieId e) id); congruence.
  - destruct (enrichment_movieId e <? enrichment_movieId r)%Z; cbn [find].
    + destruct (Z.eqb_spec (enrichment_movieId e) id); [congruence | reflexivity].
    + destruct (enrichment_movieId r =? id)%Z; [reflexivity | exact IH].
Qed.

Lemma find_upsert_same (e : MovieEnrichment) (table : list MovieEnrichment) :
  find (fun r => (enrichment_movieId r =? enrichment_movieId e)%Z) (upsert e table)
  = Some e.
Proof.
  unfold upsert. apply find_insert_row_same.
  intros r Hr. apply filter_In in Hr. destruct Hr as [_ Hr].
  now apply negb_true_iff, Z.eqb_neq in Hr.
Qed.

Lemma find_upsert_other (id : Z) (e : MovieEnrichment) (table : list MovieEnrichment) :
  id <> enrichment_movieId e ->
  find (fun r => (enrichment_movieId r =? id)%Z) (upsert e table)
  = find (fun r => (enrichment_movieId r =? id)%Z) table.
Proof.
  intro N. unfold upsert. rewrite find_insert_row_other by exact N.
  induction table as [| r table IH]; [reflexivity |].
  cbn [filter find].
  destruct (Z.eqb_spec (enrichment_movieId r) (enrichment_movieId e)) as [E | N'];
    cbn [negb find].
  - destruct (Z.eqb_spec (enrichment_movieId r) id); [congruence | exact IH].
  - destruct (enrichment_movieId r =? id)%Z; [reflexivity | exact IH].
Qed.

(** A record of the declared types is kept as it is. *)
Lemma stored_well_typed (e : MovieEnrichment) : well_typed e -> stored rt e = e.
Proof.
  intros ((a & Ha) & (q & Hq) & (g & Hg)). destruct e as [id award index tones roi score].
  cbn in Ha, Hq, Hg. subst. reflexivity.
Qed.

(** X10: after a write that succeeds, the row read back for the movie is
    the one that the table keeps of the record, which is the record itself
    when it holds texts and a number where the columns are declared TEXT
    and REAL; the rows of the other movies are read back as before the
    write, and nothing else changes. *)
Theorem saveEnrichment_getEnrichment (e : MovieEnrichment) (w w' : World) :
  saveEnrichment rt e w = (Ok tt, w') ->
  getEnrichment (enrichment_movieId e) w' = (Ok (Some (stored rt e)), w') /\
  (well_typed e -> getEnrichment (enrichment_movieId e) w' = (Ok (Some e), w')) /\
  (forall id : Z, id <> enrichment_movieId e ->
                  fst (getEnrichment id w') = fst (getEnrichment id w)) /\
  movies (db w') = movies (db w) /\ ratings (db w') = ratings (db w) /\
  sent w' = sent w.
Proof.
  unfold saveEnrichment, getEnrichment.
  destruct (storage_fault rt _ e); [discriminate |].
  intro H. injection H as <-. cbn [db movie_enrichments movies ratings sent fst].
  pose proof (find_upsert_same (stored rt e) (movie_enrichments (db w))) as Same.
  cbn [stored enrichment_movieId] in Same. fold (stored rt e) in Same.
  rewrite Same. repeat split; trivial.
  - intro T. now rewrite (stored_well_typed e T).
  - intros id N. now rewrite find_upsert_other.
Qed.

Lemma filter_twice {A : Type} (p : A -> bool) (l : list A) :
  filter p (filter p l) = filter p l.
Proof.
  induction l as [| a l IH]; [reflexivity |].
  cbn. destruct (p a) eqn:P; cbn; rewrite ?P, IH; reflexivity.
Qed.

Lemma filter_insert_row_drop (p : MovieEnrichment -> bool) (e : MovieEnrichment)
    (table : list MovieEnrichment) :
  p e = false -> filter p (insert_row e table) = filter p table.
Proof.
  intro F. induction table as [| r table IH]; cbn [insert_row].
  - cbn. now rewrite F.
  - destruct (enrichment_movieId e <? enrichment_movieId r)%Z; cbn [filter].
    + now rewrite F.
    + now rewrite IH.
Qed.

Lemma filter_insert_row_only (p : MovieEnrichment -> bool) (e : MovieEnrichment)
    (table : list MovieEnrichment) :
  p e = true -> (forall r, In r table -> p r = false) ->
  filter p (insert_row e table) = [e].
Proof.
  intros T F. induction table as [| r table IH]; cbn [insert_row].
  - cbn. now rewrite T.
  - assert (filter p table = []) as None
      by (apply filter_none; intros r' Hr'; apply F; now right).
    destruct (enrichment_movieId e <? enrichment_movieId r)%Z; cbn [filter].
    + rewrite T, (F r) by now left. now rewrite None.
    + rewrite (F r) by now left. apply IH. intros r' Hr'. apply F. now right.
Qed.

Lemma upsert_upsert (e1 e2 : MovieEnrichment) (table : list MovieEnrichment) :
  enrichment_movieId e1 = enrichment_movieId e2 ->
  upsert e2 (upsert e1 table) = upsert e2 table.
Proof.
  intro E. unfold upsert. rewrite E, filter_insert_row_drop, filter_twice.
  - reflexivity.
  - now rewrite E, Z.eqb_refl.
Qed.

Lemma upsert_one_row (e : MovieEnrichment) (table : list MovieEnrichment) :
  filter (fun r => (enrichment_movieId r =? enrichment_movieId e)%Z) (upsert e table)
  = [e].
Proof.
  unfold upsert. apply filter_insert_row_only.
  - apply Z.eqb_refl.
  - intros r Hr. apply filter_In in Hr. destruct Hr as [_ Hr].
    now apply negb_true_iff in Hr.
Qed.

Lemma filter_sorted {A : Type} (R : A -> A -> Prop) (p : A -> bool) (l : list A) :
  StronglySorted R l -> StronglySorted R (filter p l).
Proof.
  induction 1 as [| a l Hs IH Ha]; [constructor |].
  cbn. destruct (p a); [| exact IH].
  constructor; [exact IH |].
  rewrite Forall_forall in *. intros b Hb. apply Ha.
  now apply filter_In in Hb.
Qed.

Lemma insert_row_sorted (e : MovieEnrichment) (table : list MovieEnrichment) :
  in_key_order table ->
  (forall r, In r table -> enrichment_movieId r <> enrichment_movieId e) ->
  in_key_order (insert_row e table).
Proof.
  unfold in_key_order.
  induction 1 as [| r table Hs IH Hr]; intro Fresh; cbn [insert_row].
  - repeat constructor.
  - rewrite Forall_forall in Hr.
    destruct (Z.ltb_spec (enrichment_movieId e) (enrichment_movieId r)) as [L | G].
    + constructor; [constructor; [exact Hs | now apply Forall_forall] |].
      apply Forall_forall. intros b [<- | Hb]; [exact L |].
      specialize (Hr b Hb). lia.
    + assert (enrichment_movieId r <> enrichment_movieId e) as N
        by (apply Fresh; now left).
      constructor; [apply IH; intros b Hb; apply Fresh; now right |].
      apply Forall_forall. intros b Hb.
      apply (Permutation_in _ (insert_row_perm e table)) in Hb.
      destruct Hb as [<- | Hb]; [lia | now apply Hr].
Qed.

(** A write keeps the rows in the order of their identifiers. *)
Lemma upsert_sorted (e : MovieEnrichment) (table : list MovieEnrichment) :
  in_key_order table -> in_key_order (upsert e table).
Proof.
  intro S. unfold upsert. apply insert_row_sorted.
  - now apply filter_sorted.
  - intros r Hr. apply filter_In in Hr. destruct Hr as [_ Hr].
    now apply negb_true_iff, Z.eqb_neq in Hr.
Qed.

(** X11: enriching the same movie twice leaves exactly one row for it, the
    one kept of the second record: the table is the one that the second
    write alone would have given, and its rows still come in the order of
    their identifiers when they did before. *)
Theorem saveEnrichment_twice (e1 e2 : MovieEnrichment) (w w1 w2 : World) :
  enrichment_movieId e1 = enrichment_movieId e2 ->
  saveEnrichment rt e1 w = (Ok tt, w1) ->
  saveEnrichment rt e2 w1 = (Ok tt, w2) ->
  movie_enrichments (db w2) = upsert (stored rt e2) (movie_enrichments (db w)) /\
  filter (fun r => (enrichment_movieId r =? enrichment_movieId e2)%Z)
         (movie_enrichments (db w2)) = [stored rt e2] /\
  getEnrichment (enrichment_movieId e1) w2 = (Ok (Some (stored rt e2)), w2) /\
  (in_key_order (movie_enrichments (db w)) ->
   in_key_order (movie_enrichments (db w2))).
Proof.
  intros E S1 S2. unfold saveEnrichment in S1, S2.
  destruct (storage_fault rt _ e1); [discriminate |]. injection S1 as <-.
  cbn [db movies ratings movie_enrichments sent] in S2.
  destruct (storage_fault rt _ e2); [discriminate |]. injection S2 as <-.
  unfold getEnrichment. cbn [db movie_enrichments].
  rewrite (upsert_upsert (stored rt e1) (stored rt e2) _ E).
  split; [reflexivity |].
  split; [apply (upsert_one_row (stored rt e2)) |].
  split; [| apply upsert_sorted].
  rewrite E. pose proof (find_upsert_same (stored rt e2) (movie_enrichments (db w))) as Same.
  cbn [stored enrichment_movieId] in Same. fold (stored rt e2) in Same.
  now rewrite Same.
Qed.

Lemma in_join (ms : list Movie) (es : list MovieEnrichment) (row : EnrichedMovie) :
  In row (join ms es) <->
  In (details row) ms /\ In (enrichment row) es /\
  movieId (details row) = enrichment_movieId (enrichment row).
Proof.
  unfold join. rewrite in_flat_map. split.
  - intros (m & Hm & Hrow). apply in_map_iff in Hrow.
    destruct Hrow as (e & <- & He). apply filter_In in He.
    destruct He as [He Eq]. apply Z.eqb_eq in Eq. cbn. auto.
  - intros (Hm & He & Eq). exists (details row). split; [exact Hm |].
    apply in_map_iff. exists (enrichment row). split; [now destruct row |].
    apply filter_In. split; [exact He | now apply Z.eqb_eq].
Qed.

(** X12: the enriched movies are the pairs of a movie of the catalog and a
    row of the enrichment table that carry the same identifier: a movie
    without a row is not listed; when identifiers are keys of both tables no
    identifier is listed twice. *)
Theorem getEnrichedMoviesWithDetails_rows (w : World) :
  exists rows : list EnrichedMovie,
    getEnrichedMoviesWithDetails w = (Ok rows, w) /\
    (forall row : EnrichedMovie,
        In row rows <->
        In (details row) (movies (db w)) /\
        In (enrichment row) (movie_enrichments (db w)) /\
        movieId (details row) = enrichment_movieId (enrichment row)) /\
    (NoDup (map movieId (movies (db w))) ->
     NoDup (map enrichment_movieId (movie_enrichments (db w))) ->
     NoDup (map (fun row => movieId (details row)) rows)).
Proof.
  eexists. split; [reflexivity |]. split.
  - apply in_join.
  - apply join_NoDup.
Qed.

Lemma sorted_distinct {A : Type} (R : A -> A -> Prop) (l : list A) :
  StronglySorted R l -> NoDup l ->
  StronglySorted (fun a b => R a b /\ a <> b) l.
Proof.
  induction 1 as [| a l Hs IH Ha]; intro Hn; [constructor |].
  inversion Hn as [| ? ? Hni Hn']; subst.
  constructor; [now apply IH |].
  rewrite Forall_forall in *. intros b Hb. split; [now apply Ha |].
  intros ->. contradiction.
Qed.

(** X13: the users are listed in strictly increasing order, hence once
    each, and they are the users that have rated a movie. *)
Theorem getAllUsers_sorted_distinct (w : World) :
  exists users : list Z,
    getAllUsers w = (Ok users, w) /\
    StronglySorted Z.lt users /\
    (forall u : Z,
        In u users <-> exists r : Rating, In r (ratings (db w)) /\ userId r = u).
Proof.
  eexists. split; [reflexivity |].
  set (distinct := nodup Z.eq_dec (map userId (ratings (db w)))).
  pose proof (sort_perm Z.leb distinct) as P.
  split.
  - assert (StronglySorted (fun a b => (a <=? b)%Z = true) (JS.sort Z.leb distinct)) as S.
    { apply sort_sorted.
      - intros a b. rewrite !Z.leb_le. lia.
      - intros a b c. rewrite !Z.leb_le. lia. }
    assert (NoDup (JS.sort Z.leb distinct)) as N.
    { apply (Permutation_NoDup (Permutation_sym P)). apply NoDup_nodup. }
    pose proof (sorted_distinct _ _ S N) as SD.
    clear - SD. induction SD as [| a l _ IH Ha]; constructor; [exact IH |].
    rewrite Forall_forall in *. intros b Hb.
    destruct (Ha b Hb) as [L D]. apply Z.leb_le in L. lia.
  - intro u. split.
    + intro H. apply (Permutation_in _ P) in H.
      apply nodup_In, in_map_iff in H. destruct H as (r & E & Hr). now exists r.
    + intros (r & Hr & <-). apply (Permutation_in _ (Permutation_sym P)).
      apply nodup_In. now apply in_map.
Qed.

Lemma firstn_pages {A : Type} (a b : nat) (l : list A) :
  firstn a l ++ firstn b (skipn a l) = firstn (a + b) l.
Proof.
  revert l. induction a as [| a IH]; intro l; [reflexivity |].
  destruct l as [| x l]; cbn; [now rewrite firstn_nil | now rewrite IH].
Qed.

(** X14: without a limit, and with the limit 0, all the movies are returned
    and the offset is ignored; a positive limit with an offset returns at
    most that many movies from that position on, and two consecutive pages
    make the page of their total size. *)
Theorem getMovies_with_pages (w : World) (offset : option Z) (l l' o : Z) :
  getMovies_with None offset w = getMovies w /\
  getMovies_with (Some 0%Z) offset w = getMovies w /\
  ((0 < l)%Z -> (0 <= o)%Z ->
   getMovies_with (Some l) (Some o) w
   = (Ok (firstn (Z.to_nat l) (skipn (Z.to_nat o) (movies (db w)))), w)) /\
  ((0 < l)%Z -> (0 < l')%Z -> (0 <= o)%Z ->
   exists first second both : list Movie,
     fst (getMovies_with (Some l) (Some o) w) = Ok first /\
     fst (getMovies_with (Some l') (Some (o + l)%Z) w) = Ok second /\
     fst (getMovies_with (Some (l + l')%Z) (Some o) w) = Ok both /\
     both = first ++ second /\
     (Z.of_nat (List.length first) <= l)%Z).
Proof.
  assert (forall a b : Z, (0 < a)%Z -> (0 <= b)%Z ->
          getMovies_with (Some a) (Some b) w
          = (Ok (firstn (Z.to_nat a) (skipn (Z.to_nat b) (movies (db w)))), w)) as Page.
  { intros a b Ha Hb. unfold getMovies_with.
    destruct (Z.eqb_spec a 0); [lia |].
    destruct (Z.ltb_spec a 0); [lia |].
    destruct (Z.eqb_spec b 0) as [-> |]; reflexivity. }
  split; [reflexivity |]. split; [reflexivity |]. split; [apply Page |].
  intros Hl Hl' Ho.
  rewrite !Page by lia. cbn [fst].
  do 3 eexists. repeat split.
  - rewrite Z2Nat.inj_add, <- firstn_pages by lia.
    rewrite skipn_skipn, Z2Nat.inj_add by lia.
    now rewrite (Nat.add_comm (Z.to_nat l)).
  - pose proof (firstn_le_length (Z.to_nat l)
                  (skipn (Z.to_nat o) (movies (db w)))). lia.
Qed.

End Store.

Lemma saveEnrichment_getEnrichment_witness :
  exists w' : World,
    saveEnrichment Fixture.runtime (Fixture.enriched_row Fixture.first_film)
      Fixture.fresh = (Ok tt, w') /\
    getEnrichment 1 w' = (Ok (Some (Fixture.enriched_row Fixture.first_film)), w').
Proof.
  eexists. split; [reflexivity |].
  destruct (saveEnrichment_getEnrichment Fixture.runtime
              (Fixture.enriched_row Fixture.first_film) Fixture.fresh _ eq_refl)
    as (_ & Typed & _).
  apply Typed. repeat split; eexists; reflexivity.
Defined.

Lemma saveEnrichment_twice_witness :
  exists w2 : World,
    movie_enrichments (db w2) = [Fixture.enriched_row Fixture.first_film] /\
    getEnrichment 1 w2 = (Ok (Some (Fixture.enriched_row Fixture.first_film)), w2).
Proof.
  eexists.
  destruct (saveEnrichment_twice Fixture.runtime
              (mkMovieEnrichment 1 (JStr "Low") (JNum 10) (JStr "dark") None 10)
              (Fixture.enriched_row Fixture.first_film) Fixture.fresh
              _ _ eq_refl eq_refl eq_refl) as (Table & _ & Read & _).
  split; [exact Table | exact Read].
Defined.

(** ** Preferences of a user *)

Section Preferences.

Variable rt : Runtime.

Lemma get_field_of (parsed : json) (k : string) :
  parsed <> JNull -> JS.get parsed k = Ok (field_of parsed k).
Proof. destruct parsed; intro H; try reflexivity. congruence. Qed.

(** The value returned, read off the text of the function. *)
Lemma analyzeUserPreferences_run (user : Z) (w : World) :
  analyzeUserPreferences rt user w =
  match user_ratings user w with
  | [] => (Throw (Error ("User " ++ JS.string_of_Z user ++ " has no ratings")), w)
  | rated =>
      let prompt := preferences_prompt w rated in
      match completion rt (List.length (sent w)) prompt with
      | Throw x => (Throw x, after_prompt w prompt)
      | Ok response =>
          match JSON_parse rt (trimmed_or response "{}") with
          | Ok JNull | Throw _ =>
              (Throw (Error "Failed to analyze user preferences"),
               after_prompt w prompt)
          | Ok parsed =>
              (Ok (read_preferences user
                     (sumQ (map rating rated) / Num.of_nat (List.length rated))
                     parsed),
               after_prompt w prompt)
          end
      end
  end.
Proof.
  unfold analyzeUserPreferences, bind at 1, getRatingsByUserId.
  fold (user_ratings user w).
  destruct (user_ratings user w) as [| r rated] eqn:R; [reflexivity |].
  rewrite <- R. clear R r rated. set (rated := user_ratings user w).
  unfold bind, getMoviesByIds, createCompletion, try_catch, lift, ret, throw.
  fold (preferences_prompt w rated). cbn zeta.
  fold (after_prompt w (preferences_prompt w rated)).
  destruct (completion rt _ _) as [response | x]; [| reflexivity].
  destruct (JSON_parse rt _) as [parsed | x]; [| reflexivity].
  destruct parsed; reflexivity.
Qed.


(** X15: for a user without any rating the derivation of the preferences
    throws 'User <id> has no ratings' before anything is sent to the
    completion service. *)
Theorem analyzeUserPreferences_no_ratings (user : Z) (w : World) :
  (forall r : Rating, In r (ratings (db w)) -> userId r <> user) ->
  analyzeUserPreferences rt user w
  = (Throw (Error ("User " ++ JS.string_of_Z user ++ " has no ratings")), w).
Proof.
  intro H. rewrite analyzeUserPreferences_run. unfold user_ratings.
  rewrite filter_none; [reflexivity |].
  intros r Hr. apply Z.eqb_neq. now apply H.
Qed.


(** X17: an answer that cannot be parsed, or that is null, makes the
    derivation of the preferences throw 'Failed to analyze user
    preferences'; any other answer is accepted, a key that is missing
    being replaced by its default. *)
Theorem analyzeUserPreferences_answer (user : Z) (w : World)
    (response : option string) :
  user_ratings user w <> [] ->
  completion rt (List.length (sent w)) (preferences_prompt w (user_ratings user w))
  = Ok response ->
  let answer := JSON_parse rt (trimmed_or response "{}") in
  let w' := after_prompt w (preferences_prompt w (user_ratings user w)) in
  ((answer = Ok JNull \/ exists x, answer = Throw x) ->
   analyzeUserPreferences rt user w
   = (Throw (Error "Failed to analyze user preferences"), w')) /\
  (forall parsed : json,
      answer = Ok parsed -> parsed <> JNull ->
      exists prefs : UserPreferences,
        analyzeUserPreferences rt user w = (Ok prefs, w') /\
        (has_key parsed "favoriteGenres" = false -> favoriteGenres prefs = JArr []) /\
        (has_key parsed "preferredEmotionalTones" = false ->
         preferredEmotionalTones prefs = JArr []) /\
        (has_key parsed "budgetPreference" = false ->
         budgetPreference prefs = JStr "Mixed") /\
        (has_key parsed "summary" = false ->
         summary prefs = JStr "User preferences could not be determined")).
Proof.
  intros Rated Hc answer w'. rewrite analyzeUserPreferences_run.
  set (rated := user_ratings user w) in *. clearbody rated.
  destruct rated as [| r rs]; [congruence |].
  cbn zeta. rewrite Hc. fold answer. fold w'.
  split.
  - intros [-> | [x ->]]; reflexivity.
  - intros parsed -> Hn.
    exists (read_preferences user
              (sumQ (map rating (r :: rs))
               / Num.of_nat (List.length (r :: rs))) parsed).
    split; [destruct parsed; try reflexivity; congruence |].
    assert (forall k, has_key parsed k = false -> field_of parsed k = None) as Missing.
    { intros k Hk. destruct parsed; try reflexivity. now apply assoc_missing. }
    cbn [read_preferences favoriteGenres preferredEmotionalTones
         budgetPreference summary].
    repeat split; intro Hk; now rewrite (Missing _ Hk).
Qed.

End Preferences.

Lemma analyzeUserPreferences_no_ratings_witness :
  analyzeUserPreferences Fixture.runtime 42 Fixture.fresh
  = (Throw (Error "User 42 has no ratings"), Fixture.fresh).
Proof.
  apply (analyzeUserPreferences_no_ratings Fixture.runtime 42 Fixture.fresh).
  intros r Hr. cbn in Hr. intuition (subst; discriminate).
Defined.


Lemma analyzeUserPreferences_answer_witness :
  exists prefs : UserPreferences,
    fst (analyzeUserPreferences Fixture.runtime 8 Fixture.fresh) = Ok prefs /\
    summary prefs = JStr "User preferences could not be determined".
Proof.
  destruct (analyzeUserPreferences_answer Fixture.runtime 8 Fixture.fresh
              (Some Fixture.preferences_text)) as [_ Accepted].
  - discriminate.
  - reflexivity.
  - destruct (Accepted (JObj [("favoriteGenres", JArr [JStr "Drama"]);
                               ("budgetPreference", JStr "Indie")]%string))
      as (prefs & Run & _ & _ & _ & Summary).
    + reflexivity.
    + discriminate.
    + exists prefs. rewrite Run. split; [reflexivity |]. now apply Summary.
Defined.

(** ** Further properties of the recommendations *)

Section MoreRecommendations.

Variable rt : Runtime.

Lemma analyzeUserPreferences_db (user : Z) (w : World) :
  db (snd (analyzeUserPreferences rt user w)) = db w.
Proof.
  rewrite analyzeUserPreferences_run.
  destruct (user_ratings user w); [reflexivity |]. cbn zeta.
  destruct (completion rt _ _); [| reflexivity].
  destruct (JSON_parse rt _) as [[] |]; reflexivity.
Qed.

(** The value returned, read off the text of the function. *)
Lemma getRecommendations_run (user requested : Z) (filters : option string)
    (w : World) :
  getRecommendations rt user requested filters w =
  match analyzeUserPreferences rt user w with
  | (Throw x, w1) => (Throw x, w1)
  | (Ok prefs, w1) =>
      let candidateMovies :=
        candidates_for (user_ratings user w)
          (join (movies (db w)) (movie_enrichments (db w))) in
      match candidateMovies with
      | [] => (Throw (Error "No unrated movies available for recommendations"), w1)
      | _ =>
          let ranking :=
            RankingPrompt requested prefs filters
              (map summarize (firstn 50 candidateMovies)) in
          match completion rt (List.length (sent w1)) ranking with
          | Throw x => (Throw x, after_prompt w1 ranking)
          | Ok response =>
              (match listed_entries (JSON_parse rt (content_or response "[]")) with
               | Some entries =>
                   match reconcile candidateMovies (JS.slice0 entries requested) [] with
                   | Ok recs => Ok recs
                   | Throw _ => Throw (Error "Failed to generate recommendations")
                   end
               | None => Throw (Error "Failed to generate recommendations")
               end, after_prompt w1 ranking)
          end
      end
  end.
Proof.
  unfold getRecommendations, bind at 1.
  pose proof (analyzeUserPreferences_db user w) as Db.
  destruct (analyzeUserPreferences rt user w) as [[prefs | x] w1]; [| reflexivity].
  cbn [snd] in Db.
  unfold bind at 1, getRatingsByUserId at 1.
  unfold bind at 1, getEnrichedMoviesWithDetails.
  fold (user_ratings user w1).
  replace (user_ratings user w1) with (user_ratings user w)
    by (unfold user_ratings; now rewrite Db).
  rewrite Db. cbn zeta.
  destruct (candidates_for _ _) as [| c cs] eqn:C; [reflexivity |].
  rewrite <- C. clear C.
  unfold bind at 1, createCompletion.
  match goal with
  | |- context [completion rt _ ?p] => set (ranking := p)
  end.
  fold (after_prompt w1 ranking).
  destruct (completion rt _ ranking) as [response | x]; [| reflexivity].
  unfold try_catch, bind, lift, throw, listed_entries.
  destruct (JSON_parse rt _) as [parsed | x]; [| reflexivity].
  destruct parsed as [| b | q | s | items | fields]; try reflexivity.
  cbn [JS.get].
  destruct (JS.assoc "recommendations" fields) as [[| b | q | s | entries | fs] |];
    try reflexivity.
  now destruct (reconcile _ _ _).
Qed.

Lemma user_ratings_in (user : Z) (w : World) (r : Rating) :
  In r (user_ratings user w) <-> In r (ratings (db w)) /\ userId r = user.
Proof.
  unfold user_ratings. split.
  - intro H. apply (Permutation_in _ (sort_perm _ _)) in H.
    apply filter_In in H. now rewrite Z.eqb_eq in H.
  - intros [H E]. apply (Permutation_in _ (Permutation_sym (sort_perm _ _))).
    apply filter_In. now rewrite Z.eqb_eq.
Qed.

Lemma candidates_for_in (rated : list Rating) (rows : list EnrichedMovie)
    (row : EnrichedMovie) :
  In row (candidates_for rated rows) <->
  In row rows /\
  forall r : Rating, In r rated -> rating_movieId r <> movieId (details row).
Proof.
  unfold candidates_for. rewrite filter_In, negb_true_iff. split.
  - intros [H N]. split; [exact H |]. intros r Hr E.
    assert (existsb (Z.eqb (movieId (details row))) (map rating_movieId rated) = true)
      as K; [| congruence].
    apply existsb_exists. exists (rating_movieId r).
    split; [now apply in_map | now apply Z.eqb_eq].
  - intros [H N]. split; [exact H |].
    destruct (existsb _ _) eqn:K; [| reflexivity].
    apply existsb_exists in K. destruct K as (id & Hid & E).
    apply Z.eqb_eq in E. apply in_map_iff in Hid. destruct Hid as (r & Er & Hr).
    exfalso. apply (N r Hr). congruence.
Qed.

(** X18: a movie that is recommended is a movie of the catalog with its own
    enrichment row, and the user has not rated it. *)
Theorem getRecommendations_unrated_only (user requested : Z)
    (filters : option string) (w w' : World) (recs : list Recommendation)
    (r : Recommendation) :
  getRecommendations rt user requested filters w = (Ok recs, w') ->
  In r recs ->
  In (details (movie r)) (movies (db w)) /\
  In (enrichment (movie r)) (movie_enrichments (db w)) /\
  movieId (details (movie r)) = enrichment_movieId (enrichment (movie r)) /\
  forall rated : Rating,
    In rated (ratings (db w)) -> userId rated = user ->
    rating_movieId rated <> movieId (details (movie r)).
Proof.
  rewrite getRecommendations_run. intros Run Hr.
  destruct (analyzeUserPreferences rt user w) as [[prefs | x] w1]; [| discriminate].
  cbn zeta in Run.
  set (candidateMovies := candidates_for _ _) in *.
  assert (In (movie r) candidateMovies) as Hc.
  { destruct candidateMovies as [| c cs] eqn:C; [discriminate |]. rewrite <- C in *.
    destruct (completion rt _ _) as [response | x]; [| discriminate].
    destruct (listed_entries _) as [entries |]; [| discriminate].
    destruct (reconcile _ _ _) as [out | x] eqn:R; [| discriminate].
    injection Run as <- _.
    destruct (reconcile_spec _ _ _ _ R) as (new & -> & Hm). cbn [app] in Hr.
    assert (In (movie r) (flat_map (kept candidateMovies) (JS.slice0 entries requested)))
      as K by (rewrite <- Hm; now apply in_map).
    apply in_flat_map in K. destruct K as (rec & _ & K).
    now apply kept_known in K. }
  apply candidates_for_in in Hc. destruct Hc as [Hj Hn].
  apply in_join in Hj. destruct Hj as (Hm & He & Eq).
  repeat split; trivial.
  intros rated Hin Hu. apply Hn. now apply user_ratings_in.
Qed.

(** X19: when the user has rated every enriched movie the call throws 'No
    unrated movies available for recommendations' once the preferences are
    derived, and no ranking request is sent. *)
Theorem getRecommendations_no_candidate (user requested : Z)
    (filters : option string) (w w1 : World) (prefs : UserPreferences) :
  analyzeUserPreferences rt user w = (Ok prefs, w1) ->
  (forall row : EnrichedMovie,
      In row (join (movies (db w)) (movie_enrichments (db w))) ->
      exists rated : Rating,
        In rated (ratings (db w)) /\ userId rated = user /\
        rating_movieId rated = movieId (details row)) ->
  getRecommendations rt user requested filters w
  = (Throw (Error "No unrated movies available for recommendations"), w1).
Proof.
  intros Hp Hall. rewrite getRecommendations_run, Hp. cbn zeta.
  destruct (candidates_for _ _) as [| c cs] eqn:C; [reflexivity |].
  assert (In c (candidates_for (user_ratings user w)
                  (join (movies (db w)) (movie_enrichments (db w))))) as Hc
    by (rewrite C; now left).
  apply candidates_for_in in Hc. destruct Hc as [Hj Hn].
  destruct (Hall c Hj) as (rated & Hin & Hu & Eq).
  exfalso. apply (Hn rated); [now apply user_ratings_in | exact Eq].
Qed.

(** X20: a ranking answer with a null or empty content, an answer that is a
    JSON array (the format that the prompt asks for) and an answer that does
    not parse all make the call throw 'Failed to generate
    recommendations'. *)
Theorem getRecommendations_unreadable_answer (user requested : Z)
    (filters : option string) (w w1 : World) (prefs : UserPreferences)
    (response : option string) :
  analyzeUserPreferences rt user w = (Ok prefs, w1) ->
  let candidateMovies :=
    candidates_for (user_ratings user w)
      (join (movies (db w)) (movie_enrichments (db w))) in
  let ranking :=
    RankingPrompt requested prefs filters
      (map summarize (firstn 50 candidateMovies)) in
  candidateMovies <> [] ->
  completion rt (List.length (sent w1)) ranking = Ok response ->
  (response = None \/ response = Some EmptyString \/
   (exists items, JSON_parse rt (content_or response "[]") = Ok (JArr items)) \/
   (exists x, JSON_parse rt (content_or response "[]") = Throw x)) ->
  getRecommendations rt user requested filters w
  = (Throw (Error "Failed to generate recommendations"), after_prompt w1 ranking).
Proof.
  intros Hp candidateMovies ranking Hne Hc Bad.
  rewrite getRecommendations_run, Hp. cbn zeta. fold candidateMovies.
  subst ranking. clearbody candidateMovies.
  destruct candidateMovies as [| c cs]; [congruence |].
  rewrite Hc.
  assert (listed_entries (JSON_parse rt (content_or response "[]")) = None) as ->;
    [| reflexivity].
  destruct Bad as [-> | [-> | [[items ->] | [x ->]]]]; reflexivity.
Qed.

End MoreRecommendations.

Lemma getRecommendations_unrated_only_witness :
  exists (recs : list Recommendation) (w' : World) (r : Recommendation),
    getRecommendations Fixture.runtime 7 2 None Fixture.enriched = (Ok recs, w') /\
    In r recs /\
    forall rated : Rating,
      In rated (ratings (db Fixture.enriched)) -> userId rated = 7%Z ->
      rating_movieId rated <> movieId (details (movie r)).
Proof.
  destruct (getRecommendations Fixture.runtime 7 2 None Fixture.enriched)
    as [[recs | x] w'] eqn:Run; [| vm_compute in Run; discriminate].
  destruct recs as [| r recs]; [vm_compute in Run; discriminate |].
  exists (r :: recs), w', r. split; [reflexivity |]. split; [now left |].
  apply (getRecommendations_unrated_only Fixture.runtime 7 2 None
           Fixture.enriched w' (r :: recs) r Run).
  now left.
Defined.

Lemma getRecommendations_no_candidate_witness :
  exists w1 : World,
    getRecommendations Fixture.runtime 8 5 None Fixture.enriched
    = (Throw (Error "No unrated movies available for recommendations"), w1).
Proof.
  destruct (analyzeUserPreferences Fixture.runtime 8 Fixture.enriched)
    as [[prefs | x] w1] eqn:Run; [| vm_compute in Run; discriminate].
  exists w1.
  apply (getRecommendations_no_candidate Fixture.runtime 8 5 None
           Fixture.enriched w1 prefs Run).
  intros row Hrow. cbn in Hrow.
  destruct Hrow as [<- | [<- | []]].
  - exists (mkRating 3 8 1 3 3000). cbn. auto.
  - exists (mkRating 2 8 2 4 2000). cbn. auto.
Defined.

Lemma getRecommendations_unreadable_answer_witness :
  exists w' : World,
    getRecommendations Fixture.mute_runtime 7 2 None Fixture.enriched
    = (Throw (Error "Failed to generate recommendations"), w').
Proof.
  destruct (analyzeUserPreferences Fixture.mute_runtime 7 Fixture.enriched)
    as [[prefs | x] w1] eqn:Run; [| vm_compute in Run; discriminate].
  eexists.
  apply (getRecommendations_unreadable_answer Fixture.mute_runtime 7 2 None
           Fixture.enriched w1 prefs None Run).
  - discriminate.
  - reflexivity.
  - now left.
Defined.

(** ** Further properties of the comparison *)

Section MoreComparison.

Variable rt : Runtime.

Lemma user_context_run (user : option Z) (w : World) :
  exists (context : option UserPreferences) (w1 : World),
    user_context rt user w = (Ok context, w1) /\ db w1 = db w.
Proof.
  unfold user_context. destruct user as [u |]; [| now exists None, w].
  destruct (u =? 0)%Z; [now exists None, w |].
  unfold try_catch, bind, ret.
  pose proof (analyzeUserPreferences_db rt u w) as Db.
  destruct (analyzeUserPreferences rt u w) as [[prefs | x] w1]; cbn [snd] in Db.
  - now exists (Some prefs), w1.
  - now exists None, w1.
Qed.

(** X21: the personalisation of a comparison is best effort: it never
    throws and never touches the database; without a user, and for the
    user 0, nothing is sent; when the preferences cannot be derived the
    comparison goes on without them. *)
Theorem user_context_best_effort (user : option Z) (w : World) :
  exists (context : option UserPreferences) (w1 : World),
    user_context rt user w = (Ok context, w1) /\
    db w1 = db w /\
    (user = None \/ user = Some 0%Z -> context = None /\ w1 = w) /\
    (forall (u : Z) (x : exn),
        user = Some u -> u <> 0%Z ->
        fst (analyzeUserPreferences rt u w) = Throw x -> context = None).
Proof.
  unfold user_context. destruct user as [u |].
  - destruct (Z.eqb_spec u 0) as [-> | N].
    + exists None, w. unfold ret.
      split; [reflexivity |]. split; [reflexivity |]. split; [auto |].
      reflexivity.
    + unfold try_catch, bind, ret.
      pose proof (analyzeUserPreferences_db rt u w) as Db.
      destruct (analyzeUserPreferences rt u w) as [[prefs | x] w1] eqn:Run;
        cbn [snd] in Db.
      * exists (Some prefs), w1.
        split; [reflexivity |]. split; [exact Db |]. split.
        -- intros [E | E]; congruence.
        -- intros u' x E _ H. injection E as <-. rewrite Run in H. discriminate.
      * exists None, w1.
        split; [reflexivity |]. split; [exact Db |]. split.
        -- intros [E | E]; congruence.
        -- reflexivity.
  - exists None, w. unfold ret.
    split; [reflexivity |]. split; [reflexivity |]. split; [auto |].
    reflexivity.
Qed.

Lemma compared_ids (movieIds : list Z) (rows : list EnrichedMovie) (id : Z) :
  In id (map (fun row => movieId (details row))
           (filter (fun m => existsb (Z.eqb (movieId (details m))) movieIds) rows))
  <-> In id movieIds /\ In id (map (fun row => movieId (details row)) rows).
Proof.
  rewrite !in_map_iff. split.
  - intros (row & <- & Hrow). apply filter_In in Hrow. destruct Hrow as [Hin Hex].
    apply existsb_exists in Hex. destruct Hex as (k & Hk & E).
    apply Z.eqb_eq in E. split; [congruence | now exists row].
  - intros (Hid & row & <- & Hrow). exists row. split; [reflexivity |].
    apply filter_In. split; [exact Hrow |].
    apply existsb_exists. exists (movieId (details row)).
    split; [exact Hid | apply Z.eqb_refl].
Qed.

(** X22: a comparison is refused with 'At least 2 movies are required for
    comparison' below two identifiers, and with 'Some movies not found or
    not enriched' when one of the identifiers has no enriched movie, movie
    identifiers being keys of both tables; nothing is sent in either case. *)
Theorem compareMovies_missing_enrichment (movieIds : list Z) (user : option Z)
    (w : World) (id : Z) :
  NoDup (map movieId (movies (db w))) ->
  NoDup (map enrichment_movieId (movie_enrichments (db w))) ->
  In id movieIds ->
  ~ In id (map (fun row => movieId (details row))
             (join (movies (db w)) (movie_enrichments (db w)))) ->
  compareMovies rt movieIds user w
  = (Throw (Error (if (List.length movieIds <? 2)%nat
                   then "At least 2 movies are required for comparison"
                   else "Some movies not found or not enriched")), w).
Proof.
  intros Km Ke Hid Hmiss. unfold compareMovies.
  destruct (List.length movieIds <? 2)%nat; [reflexivity |].
  unfold bind, getEnrichedMoviesWithDetails.
  set (joined := join (movies (db w)) (movie_enrichments (db w))) in *.
  set (compared := filter _ joined).
  destruct (Nat.eqb_spec (List.length compared) (List.length movieIds)) as [E | Ne];
    [| reflexivity].
  exfalso.
  set (ids := map (fun row => movieId (details row)) compared).
  assert (NoDup (id :: ids)) as N.
  { constructor.
    - intro H. apply compared_ids in H. tauto.
    - apply NoDup_map_filter. now apply join_NoDup. }
  assert (incl (id :: ids) movieIds) as I.
  { intros k [<- | Hk]; [exact Hid |]. apply compared_ids in Hk. tauto. }
  pose proof (NoDup_incl_length N I) as L.
  cbn [List.length] in L. unfold ids in L. rewrite length_map in L. lia.
Qed.

(** X23: a list of at least two distinct identifiers that all have an
    enriched movie passes the validation, movie identifiers being keys of
    both tables: the movies sent for comparison are the enriched movies of
    these identifiers (in storage order), and the call returns the parsed
    answer, or throws 'Failed to compare movies' when the answer does not
    parse. *)
Theorem compareMovies_accepted (movieIds : list Z) (user : option Z) (w : World) :
  (2 <= List.length movieIds)%nat ->
  NoDup movieIds ->
  NoDup (map movieId (movies (db w))) ->
  NoDup (map enrichment_movieId (movie_enrichments (db w))) ->
  (forall id : Z,
      In id movieIds ->
      In id (map (fun row => movieId (details row))
               (join (movies (db w)) (movie_enrichments (db w))))) ->
  exists (context : option UserPreferences) (w1 : World)
         (compared : list EnrichedMovie),
    user_context rt user w = (Ok context, w1) /\
    Permutation (map (fun row => movieId (details row)) compared) movieIds /\
    (forall row, In row compared ->
                 In row (join (movies (db w)) (movie_enrichments (db w)))) /\
    let prompt := ComparisonPrompt compared context in
    compareMovies rt movieIds user w =
    match completion rt (List.length (sent w1)) prompt with
    | Throw x => (Throw x, after_prompt w1 prompt)
    | Ok response =>
        (match JSON_parse rt (trimmed_or response "{}") with
         | Ok parsed => Ok parsed
         | Throw _ => Throw (Error "Failed to compare movies")
         end, after_prompt w1 prompt)
    end.
Proof.
  intros Hlen Hn Km Ke Hall.
  destruct (user_context_run user w) as (context & w1 & Hu & _).
  set (joined := join (movies (db w)) (movie_enrichments (db w))) in *.
  set (compared := filter (fun m => existsb (Z.eqb (movieId (details m))) movieIds)
                          joined).
  assert (Permutation (map (fun row => movieId (details row)) compared) movieIds) as P.
  { apply NoDup_Permutation; [| exact Hn |].
    - apply NoDup_map_filter. now apply join_NoDup.
    - intro id. unfold compared. rewrite compared_ids. split; [tauto |].
      intro H. split; [exact H | now apply Hall]. }
  exists context, w1, compared.
  split; [exact Hu |]. split; [exact P |].
  split; [intros row Hrow; now apply filter_In in Hrow |].
  cbn zeta. unfold compareMovies.
  destruct (Nat.ltb_spec (List.length movieIds) 2); [lia |].
  unfold bind at 1, getEnrichedMoviesWithDetails. fold joined. fold compared.
  assert (List.length compared = List.length movieIds) as E
    by (rewrite <- (Permutation_length P); now rewrite length_map).
  rewrite E, Nat.eqb_refl. cbn [negb].
  unfold bind at 1. rewrite Hu.
  unfold bind, createCompletion, try_catch, lift, throw.
  fold (after_prompt w1 (ComparisonPrompt compared context)).
  destruct (completion rt _ _) as [response | x]; [| reflexivity].
  now destruct (JSON_parse rt _).
Qed.

End MoreComparison.

Lemma compareMovies_missing_enrichment_witness :
  compareMovies Fixture.runtime [1; 3]%Z None Fixture.enriched
  = (Throw (Error "Some movies not found or not enriched"), Fixture.enriched).
Proof.
  apply (compareMovies_missing_enrichment Fixture.runtime [1; 3]%Z None
           Fixture.enriched 3).
  - repeat constructor; cbn; intuition discriminate.
  - repeat constructor; cbn; intuition discriminate.
  - cbn. auto.
  - cbn. intuition discriminate.
Defined.

Lemma compareMovies_accepted_witness :
  exists w' : World,
    compareMovies Fixture.runtime [2; 1]%Z (Some 0%Z) Fixture.enriched
    = (Ok (JObj []), w').
Proof.
  destruct (compareMovies_accepted Fixture.runtime [2; 1]%Z (Some 0%Z)
              Fixture.enriched) as (context & w1 & compared & Hu & _ & _ & Run).
  - cbn. lia.
  - repeat constructor; cbn; intuition discriminate.
  - repeat constructor; cbn; intuition discriminate.
  - repeat constructor; cbn; intuition discriminate.
  - intros id [<- | [<- | []]]; cbn; auto.
  - cbn in Hu. injection Hu as <- <-. cbn zeta in Run.
    eexists. rewrite Run. reflexivity.
Defined.

(** ** Further properties of the enrichment of one movie *)

Section SingleMovie.

(** X24: the attributes of the answer are not validated: a value that is
    truthy is returned as it is, whatever its type and its range (an index
    above 100, an award potential that is not one of the three categories). *)
Theorem getLLMEnrichments_unvalidated (rt : Runtime) (input : EnrichmentInput)
    (w : World) (response : option string) (fields : list (string * json)) :
  completion rt (List.length (sent w)) (EnrichmentPrompt input) = Ok response ->
  JSON_parse rt (trimmed_or response "{}") = Ok (JObj fields) ->
  exists out : LLMEnrichments,
    getLLMEnrichments rt input w
    = (Ok out, after_prompt w (EnrichmentPrompt input)) /\
    (forall v, JS.assoc "awardPotential" fields = Some v -> JS.truthy v = true ->
               llm_awardPotential out = v) /\
    (forall v, JS.assoc "popularityQualityIndex" fields = Some v ->
               JS.truthy v = true -> llm_popularityQualityIndex out = v) /\
    (forall v, JS.assoc "emotionalGenres" fields = Some v -> JS.truthy v = true ->
               llm_emotionalGenres out = v).
Proof.
  intros Hc Hp. rewrite getLLMEnrichments_run, Hc, Hp.
  eexists. split; [reflexivity |]. cbn.
  repeat split; intros v -> T; cbn; now rewrite T.
Qed.

(** X25: the identifier, the rolling return and the production
    effectiveness score of a record do not depend on the completion service
    nor on the store: two runs on the same database that differ in these
    only agree on the three fields. *)
Theorem enrichSingleMovie_formula_fields (rt1 rt2 : Runtime) (m : Movie)
    (w w1 w2 : World) (e1 e2 : MovieEnrichment) :
  log10 rt1 = log10 rt2 ->
  parse_text rt1 = parse_text rt2 ->
  localeCompare rt1 = localeCompare rt2 ->
  enrichSingleMovie rt1 m w = (Ok e1, w1) ->
  enrichSingleMovie rt2 m w = (Ok e2, w2) ->
  enrichment_movieId e1 = movieId m /\
  enrichment_movieId e2 = movieId m /\
  productionCompanyRollingROI e1 = productionCompanyRollingROI e2 /\
  productionEffectivenessScore e1 = productionEffectivenessScore e2.
Proof.
  intros Hl Hp Hc.
  assert (calculateCompanyROI rt1 m w = calculateCompanyROI rt2 m w) as Roi
    by (unfold calculateCompanyROI, previous_movies, by_releaseDate, made_by,
          JSON_parse; now rewrite Hp, Hc).
  assert (forall avg, calculateProductionEffectiveness rt1 m avg
                      = calculateProductionEffectiveness rt2 m avg) as Score
    by (intro avg; unfold calculateProductionEffectiveness, weighted_sum,
          revenueScore; now rewrite Hl).
  unfold enrichSingleMovie, bind, getAverageRatingForMovie, ret. cbn [count].
  rewrite Roi. destruct (calculateCompanyROI_frame rt2 m w) as [roi ->].
  destruct (getLLMEnrichments rt1 _ w) as [[out1 | x1] w1']; [| discriminate].
  destruct (getLLMEnrichments rt2 _ w) as [[out2 | x2] w2']; [| discriminate].
  intros H1 H2. injection H1 as <- _. injection H2 as <- _. cbn.
  repeat split. apply Score.
Qed.

End SingleMovie.

Lemma getLLMEnrichments_unvalidated_witness :
  exists out : LLMEnrichments,
    fst (getLLMEnrichments Fixture.runtime
           (mkEnrichmentInput Fixture.first_film 4 2 None) Fixture.fresh) = Ok out /\
    llm_awardPotential out = JStr "High".
Proof.
  destruct (getLLMEnrichments_unvalidated Fixture.runtime
              (mkEnrichmentInput Fixture.first_film 4 2 None) Fixture.fresh
              (Some Fixture.enrichment_text)
              [("awardPotential", JStr "High");
               ("popularityQualityIndex", JNum 0);
               ("emotionalGenres", JStr EmptyString)]%string)
    as (out & Run & Award & _).
  - reflexivity.
  - reflexivity.
  - exists out. rewrite Run. split; [reflexivity |]. now apply Award.
Defined.

Lemma enrichSingleMovie_formula_fields_witness :
  exists (e1 e2 : MovieEnrichment),
    fst (enrichSingleMovie Fixture.runtime Fixture.first_film Fixture.fresh) = Ok e1 /\
    fst (enrichSingleMovie Fixture.blank_runtime Fixture.first_film Fixture.fresh)
    = Ok e2 /\
    awardPotential e1 <> awardPotential e2 /\
    productionCompanyRollingROI e1 = productionCompanyRollingROI e2 /\
    productionEffectivenessScore e1 = productionEffectivenessScore e2.
Proof.
  destruct (enrichSingleMovie Fixture.runtime Fixture.first_film Fixture.fresh)
    as [[e1 | x] w1] eqn:R1; [| vm_compute in R1; discriminate].
  destruct (enrichSingleMovie Fixture.blank_runtime Fixture.first_film Fixture.fresh)
    as [[e2 | x] w2] eqn:R2; [| vm_compute in R2; discriminate].
  exists e1, e2. split; [reflexivity |]. split; [reflexivity |].
  split.
  - vm_compute in R1, R2. injection R1 as <- _. injection R2 as <- _.
    discriminate.
  - now destruct (enrichSingleMovie_formula_fields Fixture.runtime
                    Fixture.blank_runtime Fixture.first_film Fixture.fresh
                    w1 w2 e1 e2 eq_refl eq_refl eq_refl R1 R2) as (_ & _ & R & S).
Defined.

(** ** Blank answers, averages and lookups *)

Section Lookups.

Variable rt : Runtime.

(** X27: a content that is null, empty or made of white space gives the
    three defaults, whatever the parser does. *)
Theorem getLLMEnrichments_blank_content (input : EnrichmentInput) (w : World)
    (response : option string) :
  completion rt (List.length (sent w)) (EnrichmentPrompt input) = Ok response ->
  (response = None \/ exists s, response = Some s /\ blank s = true) ->
  getLLMEnrichments rt input w
  = (Ok (mkLLMEnrichments (JStr "Medium") (JNum 50) (JStr "emotional")),
     after_prompt w (EnrichmentPrompt input)).
Proof.
  intros Hc Blank. rewrite getLLMEnrichments_run, Hc.
  assert (trimmed_or response "{}" = "{}"%string) as ->; [| reflexivity].
  destruct Blank as [-> | (s & -> & B)]; [reflexivity |].
  unfold trimmed_or, JS.trim. now rewrite (trimStart_blank s B).
Qed.

Lemma fold_sum_bounds (lo hi : Q) (xs : list Q) :
  Forall (fun x => lo <= x /\ x <= hi) xs ->
  forall a : Q,
    a + lo * Num.of_nat (List.length xs) <= fold_left Qplus xs a /\
    fold_left Qplus xs a <= a + hi * Num.of_nat (List.length xs).
Proof.
  unfold Num.of_nat. induction 1 as [| x xs [L U] _ IH]; intro a.
  - cbn [List.length fold_left]. change (inject_Z (Z.of_nat 0)) with 0. lra.
  - cbn [List.length fold_left]. specialize (IH (a + x)).
    rewrite Nat2Z.inj_succ, <- Z.add_1_r, inject_Z_plus.
    change (inject_Z 1) with 1. lra.
Qed.

Lemma average_rating_stats (id : Z) (w : World) (lo hi : Q) :
  (forall r : Rating,
      In r (ratings (db w)) -> rating_movieId r = id ->
      lo <= rating r /\ rating r <= hi) ->
  exists (stats : RatingStats) (rows : list Rating),
    getAverageRatingForMovie id w = (Ok (Some stats), w) /\
    getRatingsByMovieId id w = (Ok rows, w) /\
    count stats = List.length rows /\
    (avgRating stats = None <-> rows = []) /\
    (forall a : Q, avgRating stats = Some a -> lo <= a /\ a <= hi).
Proof.
  intro Bounds. unfold getAverageRatingForMovie, getRatingsByMovieId.
  set (rows := filter _ (ratings (db w))).
  eexists. exists rows. split; [reflexivity |]. split; [reflexivity |].
  cbn [count avgRating]. split; [reflexivity |].
  destruct rows as [| r rs] eqn:R.
  - cbn. split; [tauto |]. intros a H. discriminate.
  - rewrite <- R. assert (List.length rows = S (List.length rs)) as Len
      by (rewrite R; reflexivity).
    rewrite Len. cbn [Nat.eqb]. split; [split; intro H; [discriminate | ] |].
    + rewrite R in H. discriminate.
    + intros a H. injection H as <-.
      assert (Forall (fun x => lo <= x /\ x <= hi) (map rating rows)) as F.
      { apply Forall_forall. intros x Hx. apply in_map_iff in Hx.
        destruct Hx as (r' & <- & Hr'). unfold rows in Hr'.
        apply filter_In in Hr'. destruct Hr' as [Hin E].
        apply Z.eqb_eq in E. now apply Bounds. }
      destruct (fold_sum_bounds lo hi _ F 0) as [L U].
      rewrite length_map, Len in L, U. unfold sumQ.
      assert (0 < Num.of_nat (S (List.length rs))) as Pos.
      { unfold Num.of_nat. change 0 with (inject_Z 0). rewrite <- Zlt_Qlt. lia. }
      split.
      * apply Qle_shift_div_l; [exact Pos | lra].
      * apply Qle_shift_div_r; [exact Pos | lra].
Qed.

(** X28: the count returned for a movie is the number of its ratings; the
    result is never null, and its average is null exactly when the movie
    has no rating; when the ratings of the movie lie on the scale from 0 to
    5, so does an average that is not null. *)
Theorem getAverageRatingForMovie_bounds (id : Z) (w w1 w2 : World)
    (result : option RatingStats) (rows : list Rating) :
  getAverageRatingForMovie id w = (Ok result, w1) ->
  getRatingsByMovieId id w = (Ok rows, w2) ->
  exists stats : RatingStats,
    result = Some stats /\
    count stats = List.length rows /\
    (avgRating stats = None <-> rows = []) /\
    ((forall r : Rating, In r rows -> 0 <= rating r /\ rating r <= 5) ->
     forall a : Q, avgRating stats = Some a -> 0 <= a /\ a <= 5).
Proof.
  unfold getAverageRatingForMovie, getRatingsByMovieId.
  intros H1 H2. injection H1 as <- _. injection H2 as <- _.
  set (rows := filter _ (ratings (db w))).
  eexists. split; [reflexivity |].
  cbn [count avgRating]. split; [reflexivity |].
  destruct rows as [| r rs] eqn:R.
  - cbn. split; [tauto |]. intros _ a H. discriminate.
  - rewrite <- R. assert (List.length rows = S (List.length rs)) as Len
      by (rewrite R; reflexivity).
    rewrite Len. cbn [Nat.eqb]. split; [split; intro H; [discriminate | ] |].
    + rewrite R in H. discriminate.
    + intros Scale a H. injection H as <-.
      assert (Forall (fun x => 0 <= x /\ x <= 5) (map rating rows)) as F.
      { apply Forall_forall. intros x Hx. apply in_map_iff in Hx.
        destruct Hx as (r' & <- & Hr'). now apply Scale. }
      destruct (fold_sum_bounds 0 5 _ F 0) as [L U].
      rewrite length_map, Len in L, U. unfold sumQ.
      assert (0 < Num.of_nat (S (List.length rs))) as Pos.
      { unfold Num.of_nat. change 0 with (inject_Z 0). rewrite <- Zlt_Qlt. lia. }
      split.
      * apply Qle_shift_div_l; [exact Pos | lra].
      * apply Qle_shift_div_r; [exact Pos | lra].
Qed.

(** X29: when the ratings of a movie lie in [0, 5] and its revenue is an
    integer, the record computed for it carries a production effectiveness
    score in [0, 100]. The logarithm is only required to be non-negative
    from 1 on. *)
Theorem enrichSingleMovie_score_range (m : Movie) (w w' : World) (e : MovieEnrichment) :
  (forall x, 1 <= x -> 0 <= log10 rt x) ->
  (forall r : Rating,
      In r (ratings (db w)) -> rating_movieId r = movieId m ->
      0 <= rating r /\ rating r <= 5) ->
  Num.isInteger (revenue m) ->
  enrichSingleMovie rt m w = (Ok e, w') ->
  0 <= productionEffectivenessScore e /\ productionEffectivenessScore e <= 100.
Proof.
  intros Hlog Bounds Hint.
  destruct (average_rating_stats (movieId m) w 0 5 Bounds)
    as (stats & rows & Hs & _ & _ & _ & Avg).
  unfold enrichSingleMovie, bind at 1. rewrite Hs.
  unfold bind, ret.
  destruct (calculateCompanyROI_frame rt m w) as [roi ->].
  destruct (getLLMEnrichments rt _ w) as [[out | x] w1]; [| discriminate].
  intro H. injection H as <- _. cbn [productionEffectivenessScore].
  unfold calculateProductionEffectiveness.
  apply toFixed2_range; apply weighted_sum_range;
    try (now apply revenueScore_nonneg);
    destruct stats as [[a |] n]; cbn [avgRating] in *; try lra;
    destruct (Avg a eq_refl); destruct (Qeq_bool a 0); lra.
Qed.

(** X30: a movie and an enrichment row are both found for an identifier
    exactly when the enriched movies list this identifier. *)
Theorem getMovieById_getEnrichment (id : Z) (w : World) :
  (exists (m : Movie) (e : MovieEnrichment),
      getMovieById id w = (Ok (Some m), w) /\
      getEnrichment id w = (Ok (Some e), w) /\
      movieId m = id /\ enrichment_movieId e = id)
  <->
  In id (map (fun row => movieId (details row))
           (join (movies (db w)) (movie_enrichments (db w)))).
Proof.
  unfold getMovieById, getEnrichment. split.
  - intros (m & e & Hm & He & Im & Ie).
    injection Hm as Hm. injection He as He.
    apply find_some in Hm, He. destruct Hm as [Hm _]. destruct He as [He _].
    apply in_map_iff. exists (mkEnrichedMovie m e). split; [exact Im |].
    apply in_join. cbn. repeat split; trivial. congruence.
  - intro H. apply in_map_iff in H. destruct H as (row & <- & Hrow).
    apply in_join in Hrow. destruct Hrow as (Hm & He & Eq).
    destruct (find (fun m => (movieId m =? movieId (details row))%Z) (movies (db w)))
      as [m |] eqn:Fm.
    2: { apply (find_none _ _ Fm) in Hm. rewrite Z.eqb_refl in Hm. discriminate. }
    destruct (find (fun e => (enrichment_movieId e =? movieId (details row))%Z)
                (movie_enrichments (db w))) as [e |] eqn:Fe.
    2: { apply (find_none _ _ Fe) in He. rewrite <- Eq, Z.eqb_refl in He.
         discriminate. }
    exists m, e. apply find_some in Fm, Fe.
    destruct Fm as [_ Fm]. destruct Fe as [_ Fe]. apply Z.eqb_eq in Fm, Fe.
    repeat split; trivial.
Qed.

End Lookups.

Lemma getLLMEnrichments_blank_content_witness :
  getLLMEnrichments Fixture.blank_runtime
    (mkEnrichmentInput Fixture.first_film 4 2 None) Fixture.fresh
  = (Ok (mkLLMEnrichments (JStr "Medium") (JNum 50) (JStr "emotional")),
     after_prompt Fixture.fresh
       (EnrichmentPrompt (mkEnrichmentInput Fixture.first_film 4 2 None))).
Proof.
  apply (getLLMEnrichments_blank_content Fixture.blank_runtime _ _
           (Some "   "%string)).
  - reflexivity.
  - right. eexists. split; reflexivity.
Defined.

Lemma fixture_ratings_in_range (r : Rating) :
  In r (ratings (db Fixture.fresh)) -> 0 <= rating r /\ rating r <= 5.
Proof.
  cbn. intros [<- | [<- | [<- | []]]]; cbn; split; discriminate.
Qed.

Lemma getAverageRatingForMovie_bounds_witness :
  exists stats : RatingStats,
    getAverageRatingForMovie 1 Fixture.fresh = (Ok (Some stats), Fixture.fresh) /\
    count stats = 2%nat /\
    forall a : Q, avgRating stats = Some a -> 0 <= a /\ a <= 5.
Proof.
  destruct (getAverageRatingForMovie 1 Fixture.fresh) as [[result | x] w1] eqn:Run;
    [| vm_compute in Run; discriminate].
  destruct (getAverageRatingForMovie_bounds 1 Fixture.fresh w1 Fixture.fresh
              result _ Run eq_refl) as (stats & -> & Hc & _ & Avg).
  exists stats. split; [now injection Run as _ <- |].
  split; [exact Hc |].
  apply Avg. intros r Hr. apply fixture_ratings_in_range.
  cbn in Hr |- *. tauto.
Defined.

Lemma enrichSingleMovie_score_range_witness :
  exists e : MovieEnrichment,
    fst (enrichSingleMovie Fixture.runtime Fixture.first_film Fixture.fresh) = Ok e /\
    0 <= productionEffectivenessScore e /\ productionEffectivenessScore e <= 100.
Proof.
  destruct (enrichSingleMovie Fixture.runtime Fixture.first_film Fixture.fresh)
    as [[e | x] w'] eqn:Run; [| vm_compute in Run; discriminate].
  exists e. split; [reflexivity |].
  apply (enrichSingleMovie_score_range Fixture.runtime Fixture.first_film
           Fixture.fresh w' e).
  - intros x _. apply digits_log10_nonneg.
  - intros r Hr _. now apply fixture_ratings_in_range.
  - exists 150%Z. reflexivity.
  - exact Run.
Defined.
